(** * Replay of recorded sensor measurements over a Bluetooth serial channel

    A shallow embedding of the measurement pipeline and playback driver
    ([groupMeasurementsByTimestamp], [prepareAndSendMessages], [waitDelta])
    and of the RFCOMM transport class ([resolveAddress], [connectRFCOMM],
    [sendMessage]), with the properties the design note states about them.

    The repository holds several variants of the class [Bluetooth].  The one
    embedded here is the variant the design note describes: it keeps the
    descriptor of the opened device and writes to it.  The variant of
    [src/bluetooth.ts] keeps a connected flag only, and its [sendMessage]
    logs the message instead of writing it; it is embedded apart, in the
    module [Legacy], together with the test script that drives it.

    Conventions of the embedding:
    - a JavaScript [Map] and a JavaScript object used as a dictionary are
      finite maps ([gmap]); the only consumer of the key enumeration of the
      grouping map sorts it, so the insertion order is not observable
      (lemma [sortedTimestamps_any_enumeration]);
    - numbers read from the JSON input are integers ([Z]);
    - strings are byte strings, case folding is the ASCII one;
    - console output is not part of the model;
    - the timer of an attempt that ended with the exit of its process stays
      armed in the source and fires during a later attempt, where it signals
      a process that has already exited; this late signal is not part of the
      model. *)

From Stdlib Require Import ZArith Ascii String.
From stdpp Require Import base option list sorting strings pretty gmap fin_maps.

Local Open Scope string_scope.
Local Open Scope Z_scope.
Local Open Scope list_scope.

(** ** Data model *)

(** Modelled from the spec: the type of [value] is declared in [types.ts],
    which is not among the sources; the design note has it "numeric or
    numeric-array". *)
Inductive Value :=
| VNum (n : Z)
| VArr (ns : list Z).

#[global] Instance Value_eq_dec : EqDecision Value.
Proof. solve_decision. Defined.

(** Modelled from the spec: the type declarations of [types.ts], which is
    not among the sources.  The measurement type is "one of a fixed
    enumeration": the seven forwarded codes and the two ignored ones. *)
Inductive MeasurementType :=
| HeartRate | BreathFrequency | Respiration
| AccelerationX | AccelerationY | AccelerationZ
| Position | R2R | ECG.

#[global] Instance MeasurementType_eq_dec : EqDecision MeasurementType.
Proof. solve_decision. Defined.

Definition allMeasurementTypes : list MeasurementType :=
  [HeartRate; BreathFrequency; Respiration; AccelerationX; AccelerationY;
   AccelerationZ; Position; R2R; ECG].

(** Modelled from the spec: [MeasurementTypeEnum] of [types.ts] "maps raw
    type codes (including two ignored codes) to output field names".  The
    seven forwarded names are the properties the playback driver reads; the
    entries of the two ignored codes are never looked up. *)
Definition MeasurementTypeEnum (mt : MeasurementType) : option string :=
  match mt with
  | HeartRate => Some "heartRate"
  | BreathFrequency => Some "breathFrequency"
  | Respiration => Some "respiration"
  | AccelerationX => Some "accelerationX"
  | AccelerationY => Some "accelerationY"
  | AccelerationZ => Some "accelerationZ"
  | Position => Some "position"
  | R2R => Some "r2r"
  | ECG => Some "ecg"
  end.

Record Measurement := {
  date : Z;
  value : Value;
  userId : Z;
  measureType : MeasurementType
}.

#[global] Instance Measurement_eq_dec : EqDecision Measurement.
Proof. solve_decision. Defined.

(** One entry of the input file: [{data: [Measurement, ...], ...}]. *)
Record UserData := { data : list Measurement }.

(** The object stored per timestamp: [{timestamp, userId}] plus one
    property per measure key assigned so far. *)
Record DataGroup := {
  timestamp : Z;
  group_userId : Z;
  fields : gmap string Value
}.

#[global] Instance DataGroup_eq_dec : EqDecision DataGroup.
Proof. solve_decision. Defined.

(** ** Measurement pipeline *)

(** [data.map((d) => d.data).flat()] *)
Definition flatMeasurementData (ds : list UserData) : list Measurement :=
  concat (map data ds).

(** [measureType === 'R2R' || measureType === 'ECG'] *)
Definition ignoreMeasurementType (mt : MeasurementType) : bool :=
  bool_decide (mt = R2R) || bool_decide (mt = ECG).

(** Truthiness of a string: every string but the empty one. *)
Definition truthy_string (s : string) : bool :=
  match s with EmptyString => false | _ => true end.

(** [group.get(timestamp)[measureKey] = v]: the stored object is updated
    in place. *)
Definition setField (measureKey : string) (v : Value) (g : DataGroup) : DataGroup :=
  {| timestamp := timestamp g;
     group_userId := group_userId g;
     fields := <[measureKey := v]> (fields g) |}.

(** One iteration of the loop of [groupMeasurementsByTimestamp]. *)
Definition groupStep (group : gmap Z DataGroup) (measurement : Measurement)
  : gmap Z DataGroup :=
  let mt := measureType measurement in
  if ignoreMeasurementType mt then group
  else
    let ts := date measurement in
    let group :=
      if decide (is_Some (group !! ts)) then group
      else <[ts := {| timestamp := ts;
                      group_userId := userId measurement;
                      fields := ∅ |}]> group in
    match MeasurementTypeEnum mt with
    | Some measureKey =>
        if truthy_string measureKey
        then alter (setField measureKey (value measurement)) ts group
        else group
    | None => group
    end.

Definition groupMeasurementsByTimestamp (measurements : list Measurement)
  : gmap Z DataGroup :=
  fold_left groupStep measurements ∅.

(** ** What the grouping computes, stated on the input sequence *)

(** A measurement is retained when the loop does not skip it. *)
Definition retained (m : Measurement) : bool :=
  negb (ignoreMeasurementType (measureType m)).

(** The retained measurements bearing timestamp [t], in input order. *)
Definition retainedAt (t : Z) (ms : list Measurement) : list Measurement :=
  filter (λ m, retained m = true ∧ date m = t) ms.

(** The properties assigned at timestamp [t], later assignments overwriting
    earlier ones. *)
Definition assign (f : gmap string Value) (m : Measurement) : gmap string Value :=
  match MeasurementTypeEnum (measureType m) with
  | Some k => if truthy_string k then <[k := value m]> f else f
  | None => f
  end.

Definition fieldsAt (t : Z) (ms : list Measurement) : gmap string Value :=
  fold_left assign (retainedAt t ms) ∅.

Definition groupAt (t : Z) (ms : list Measurement) : option DataGroup :=
  (λ m0, {| timestamp := t; group_userId := userId m0; fields := fieldsAt t ms |})
    <$> head (retainedAt t ms).

(** The measure key under which a type code is stored, if any: the lookup
    in [MeasurementTypeEnum] followed by the guard [if (measureKey)]. *)
Definition measureKeyOf (mt : MeasurementType) : option string :=
  match MeasurementTypeEnum mt with
  | Some k => if truthy_string k then Some k else None
  | None => None
  end.

(** ** Reading the groups back as measurements

    The design note compares the grouping with its input by flattening the
    fields of the groups.  No function of the program does this; the
    following definitions spell the comparison out. *)

(** The type code stored under a measure key. *)
Definition typeOfKey (k : string) : option MeasurementType :=
  head (filter (λ mt, measureKeyOf mt = Some k) allMeasurementTypes).

(** One measurement per field of a group: the group's timestamp and user,
    the field's value and the field's type code. *)
Definition groupFields (g : DataGroup) : list Measurement :=
  omap (λ kv : string * Value,
          (λ mt, {| date := timestamp g; value := kv.2;
                    userId := group_userId g; measureType := mt |})
            <$> typeOfKey kv.1)
       (map_to_list (fields g)).

Definition flattenGroups (groups : gmap Z DataGroup) : list Measurement :=
  map_to_list groups ≫= (λ tg : Z * DataGroup, groupFields tg.2).

(** The measurements the loop does not skip. *)
Definition retainedMeasurements (ms : list Measurement) : list Measurement :=
  filter (λ m, retained m = true) ms.

(** Two measurements compete for the same field of the same group. *)
Definition sameSlot (m m' : Measurement) : Prop :=
  date m = date m' ∧ measureType m = measureType m'.

#[global] Instance sameSlot_dec m m' : Decision (sameSlot m m').
Proof. unfold sameSlot. apply _. Defined.

(** Last write wins: a measurement is kept unless a later one has the same
    timestamp and type. *)
Fixpoint lastWriteWins (ms : list Measurement) : list Measurement :=
  match ms with
  | [] => []
  | m :: ms' =>
      if decide (Exists (sameSlot m) ms')
      then lastWriteWins ms'
      else m :: lastWriteWins ms'
  end.

(** A measurement relabelled with the user of the first retained
    measurement that bears its timestamp. *)
Definition labelled (ms : list Measurement) (m : Measurement) : Measurement :=
  {| date := date m;
     value := value m;
     userId := default (userId m) (userId <$> head (retainedAt (date m) ms));
     measureType := measureType m |}.

(** ** The world outside the program

    The program talks to the operating system: it runs commands, spawns a
    connect subprocess, opens and writes a character device, reads the
    clock, sleeps, and polls a cancellation signal.  A run is modelled as a
    function of an environment that answers every such request from the
    history of what has happened so far. *)

(** What a spawned process delivers to the callbacks registered on it. *)
Inductive ProcEvent :=
| Stdout (chunk : string)
| Stderr (chunk : string)
| Exit (code : Z).

(** The handle returned by [spawn]. *)
Record Proc := { proc_cmd : string; proc_args : list string }.

#[global] Instance Proc_eq_dec : EqDecision Proc.
Proof. solve_decision. Defined.

Inductive Event :=
| EvExec (cmd : string)                      (* [exec(cmd, callback)] *)
| EvSpawn (p : Proc)                         (* [spawn(cmd, args)] *)
| EvKill (p : Proc) (signal : string)        (* [p.kill(signal)] *)
| EvOpen (path flags : string)               (* [fs.openSync(path, flags)] *)
| EvWrite (fd : Z) (bytes : string)          (* [fs.write(fd, buffer, callback)] *)
| EvSleep (ms : Z)                           (* [setTimeout(res, ms)], awaited *)
| EvGroup (ts : Z).
(** [EvGroup ts] has no counterpart at run time: it marks the point where the
    playback loop picks the group of timestamp [ts], so that the events that
    follow can be attributed to that group. *)

#[global] Instance Event_eq_dec : EqDecision Event.
Proof. solve_decision. Defined.

Record Env := {
  (** [Date.now()] *)
  now : list Event → Z;
  (** [abortSignal.aborted] *)
  aborted : list Event → bool;
  (** the standard output handed to the callback of [exec], [None] when the
      callback receives an error *)
  execStdout : list Event → string → option string;
  (** what the process spawned last delivers within the given number of
      milliseconds, in order of arrival *)
  procEvents : list Event → Z → list ProcEvent;
  (** the descriptor returned by [fs.openSync], [None] when it throws *)
  openResult : list Event → string → string → option Z;
  (** whether the callback of [fs.write] receives an error *)
  writeFails : list Event → Z → string → bool
}.

(** The fields of the [Bluetooth] object. *)
Record Bluetooth := {
  deviceAddress : string;
  rfcommProc : option Proc;
  rfcommFd : option Z
}.

#[global] Instance Bluetooth_eq_dec : EqDecision Bluetooth.
Proof. solve_decision. Defined.

Record World := {
  history : list Event;
  client : Bluetooth
}.

Inductive Error :=
| Err (message : string)         (* [throw new Error(message)] *)
| ExecError (cmd : string)       (* the error of an [exec] callback *)
| OpenError (path : string)      (* [fs.openSync] throws *)
| WriteError (fd : Z).           (* the error of a [fs.write] callback *)

#[global] Instance Error_eq_dec : EqDecision Error.
Proof. solve_decision. Defined.

(** The error taxonomy of the design note, by the message thrown. *)
Definition NotConnected : Error := Err "RFCOMM not connected".
Definition DeviceNotFound (nameOrAddr : string) : Error :=
  Err ("Paired device not found: " +:+ nameOrAddr).
Definition ChannelNegotiationFailed : Error :=
  Err "Failed to open RFCOMM on any available channel. Your mobile app needs to be running first.".

(** Computations: they read the environment, change the world, and either
    return or throw. *)
Definition M (A : Type) : Type := Env → World → World * (Error + A).

#[global] Instance M_ret : MRet M := λ A a _ w, (w, inr a).
#[global] Instance M_bind : MBind M := λ A B f c env w,
  match c env w with
  | (w', inl e) => (w', inl e)
  | (w', inr a) => f a env w'
  end.

Definition throw {A} (e : Error) : M A := λ _ w, (w, inl e).

Definition emit (ev : Event) : M unit := λ _ w,
  ({| history := history w ++ [ev]; client := client w |}, inr tt).

Definition ask {A} (f : Env → list Event → A) : M A := λ env w,
  (w, inr (f env (history w))).

Definition this : M Bluetooth := λ _ w, (w, inr (client w)).

Definition assignThis (f : Bluetooth → Bluetooth) : M unit := λ _ w,
  ({| history := history w; client := f (client w) |}, inr tt).

(** [await new Promise((resolve, reject) => exec(cmd, (err, stdout) =>
    err ? reject(err) : resolve({stdout})))] *)
Definition exec (cmd : string) : M string :=
  out ← ask (λ env h, execStdout env h cmd);
  emit (EvExec cmd);;
  match out with
  | Some stdout => mret stdout
  | None => throw (ExecError cmd)
  end.

(** [await new Promise((resolve) => exec(cmd, () => resolve())).catch(() => {})]:
    the outcome of the command is not looked at. *)
Definition execIgnoringResult (cmd : string) : M unit :=
  emit (EvExec cmd).

Definition spawn (cmd : string) (args : list string) : M Proc :=
  let p := {| proc_cmd := cmd; proc_args := args |} in
  emit (EvSpawn p);; mret p.

Definition kill (p : Proc) (signal : string) : M unit := emit (EvKill p signal).

Definition openSync (path flags : string) : M Z :=
  r ← ask (λ env h, openResult env h path flags);
  emit (EvOpen path flags);;
  match r with
  | Some fd => mret fd
  | None => throw (OpenError path)
  end.

(** [await new Promise((res, rej) => fs.write(fd, buffer, (e) => e ? rej(e) : res()))] *)
Definition write (fd : Z) (bytes : string) : M unit :=
  failed ← ask (λ env h, writeFails env h fd bytes);
  emit (EvWrite fd bytes);;
  if failed : bool then throw (WriteError fd) else mret tt.

(** [await new Promise((res) => setTimeout(res, ms))] *)
Definition sleep (ms : Z) : M unit := emit (EvSleep ms).

Definition dateNow : M Z := ask now.

Definition isAborted : M bool := ask aborted.

Definition run {A} (c : M A) (env : Env) (w : World) : World * (Error + A) :=
  c env w.

(** ** Strings and the regular expressions of the transport *)

Definition LF : ascii := "010"%char.
Definition CR : ascii := "013"%char.

(** [s.endsWith(suffix)] *)
Fixpoint endsWith (s suffix : string) : bool :=
  if decide (s = suffix) then true
  else match s with
       | EmptyString => false
       | String _ s' => endsWith s' suffix
       end.

(** [s.includes(sub)] *)
Fixpoint includes (s sub : string) : bool :=
  String.prefix sub s ||
  match s with
  | EmptyString => false
  | String _ s' => includes s' sub
  end.

Definition lowerChar (c : ascii) : ascii :=
  let n := nat_of_ascii c in
  if ((65 <=? n) && (n <=? 90))%nat then ascii_of_nat (n + 32) else c.

(** [s.toLowerCase()] on ASCII text, where it folds the letters [A] to [Z]
    and nothing else.  On other text the source folds further letters; a
    statement whose truth depends on the folding of a name or a fragment
    assumes ASCII text ([isAsciiText]). *)
Fixpoint toLowerCase (s : string) : string :=
  match s with
  | EmptyString => EmptyString
  | String c s' => String (lowerChar c) (toLowerCase s')
  end.

Fixpoint stringForall (p : ascii → bool) (s : string) : bool :=
  match s with
  | EmptyString => true
  | String c s' => p c && stringForall p s'
  end.

Fixpoint stringTake (n : nat) (s : string) : string :=
  match n, s with
  | S n', String c s' => String c (stringTake n' s')
  | _, _ => EmptyString
  end.

Fixpoint stringDrop (n : nat) (s : string) : string :=
  match n, s with
  | S n', String _ s' => stringDrop n' s'
  | _, _ => s
  end.

(** The class [[A-Fa-f0-9:]], which is also what [[0-9A-F:]] matches under
    the flag [i]. *)
Definition isHexOrColon (c : ascii) : bool :=
  let n := nat_of_ascii c in
  (((48 <=? n) && (n <=? 57)) || ((65 <=? n) && (n <=? 70))
   || ((97 <=? n) && (n <=? 102)) || (n =? 58))%nat.

(** [/^[0-9A-F:]{17}$/i.test(s)] *)
Definition isAddressPattern (s : string) : bool :=
  (String.length s =? 17)%nat && stringForall isHexOrColon s.

(** What [.] matches: any character but a line terminator. *)
Definition isDot (c : ascii) : bool :=
  negb (bool_decide (c = LF) || bool_decide (c = CR)).

(** The longest prefix matched by [.*]. *)
Fixpoint dotStar (s : string) : string :=
  match s with
  | EmptyString => EmptyString
  | String c s' => if isDot c then String c (dotStar s') else EmptyString
  end.

(** [s.split(sep)] for a one-character separator; [cur] collects the current
    piece in reverse. *)
Fixpoint splitGo (sep : ascii) (cur s : string) : list string :=
  match s with
  | EmptyString => [String.rev cur]
  | String c s' =>
      if decide (c = sep) then String.rev cur :: splitGo sep EmptyString s'
      else splitGo sep (String c cur) s'
  end.

Definition split (sep : ascii) (s : string) : list string :=
  splitGo sep EmptyString s.

(** [/Device ([A-Fa-f0-9:]{17}) (.+)/] tried at the start of [s]: the two
    captured groups. *)
Definition matchDeviceHere (s : string) : option (string * string) :=
  if String.prefix "Device " s then
    let rest := stringDrop 7 s in
    let addr := stringTake 17 rest in
    if isAddressPattern addr then
      match stringDrop 17 rest with
      | String " " tail =>
          match dotStar tail with
          | EmptyString => None
          | name => Some (addr, name)
          end
      | _ => None
      end
    else None
  else None.

(** [line.match(/Device ([A-Fa-f0-9:]{17}) (.+)/)]: the leftmost match. *)
Fixpoint matchDevice (line : string) : option (string * string) :=
  match matchDeviceHere line with
  | Some m => Some m
  | None =>
      match line with
      | EmptyString => None
      | String _ line' => matchDevice line'
      end
  end.

(** [/Connected .* on channel/.test(s)] *)
Fixpoint testConnectedOnChannel (s : string) : bool :=
  (String.prefix "Connected " s
   && includes (dotStar (stringDrop 10 s)) " on channel") ||
  match s with
  | EmptyString => false
  | String _ s' => testConnectedOnChannel s'
  end.

(** [/Connection successful/i.test(s)] *)
Definition testConnectionSuccessful (s : string) : bool :=
  includes (toLowerCase s) "connection successful".

(** ** The RFCOMM transport: class [Bluetooth] *)

(** [sendMessage(message)] *)
Definition sendMessage (message : string) : M unit :=
  bt ← this;
  match rfcommFd bt with
  | None => throw (Err "RFCOMM not connected")
  | Some fd =>
      let line := if endsWith message (String LF EmptyString) then message
                  else message +:+ String LF EmptyString in
      write fd line
  end.

(** The loop of [resolveAddress] over the lines of the listing. *)
Fixpoint findPaired (nameOrAddr : string) (lines : list string) : option string :=
  match lines with
  | [] => None
  | line :: lines' =>
      match matchDevice line with
      | Some (addr, name) =>
          if includes (toLowerCase name) (toLowerCase nameOrAddr)
          then Some addr
          else findPaired nameOrAddr lines'
      | None => findPaired nameOrAddr lines'
      end
  end.

(** [resolveAddress(nameOrAddr)] *)
Definition resolveAddress (nameOrAddr : string) : M string :=
  if isAddressPattern nameOrAddr then mret nameOrAddr
  else
    stdout ← exec "bluetoothctl devices Paired";
    match findPaired nameOrAddr (split LF stdout) with
    | Some addr => mret addr
    | None => throw (Err ("Paired device not found: " +:+ nameOrAddr))
    end.

(** [ensurePaired(addr)] *)
Definition ensurePaired (addr : string) : M unit :=
  execIgnoringResult ("bluetoothctl connect " +:+ addr).

Definition knownChannels : list Z := [12; 19; 26; 3; 2].

(** The test applied to every chunk of standard output. *)
Definition isSuccessOutput (s : string) : bool :=
  testConnectedOnChannel s || testConnectionSuccessful s.

(** How the promise of one attempt settles. *)
Inductive RaceResult := Connected | Exited | TimedOut.

#[global] Instance RaceResult_eq_dec : EqDecision RaceResult.
Proof. solve_decision. Defined.

(** The callbacks of one attempt, fed with what the process delivers before
    the timer fires: the first chunk of standard output that passes the test
    resolves to [true], an exit resolves to [false], and so does the timer
    when neither happened. *)
Fixpoint race (evs : list ProcEvent) : RaceResult :=
  match evs with
  | [] => TimedOut
  | Stdout s :: evs' => if isSuccessOutput s then Connected else race evs'
  | Stderr _ :: evs' => race evs'
  | Exit _ :: _ => Exited
  end.

Definition connectTimeout : Z := 4000.

(** [const ok = await new Promise<boolean>(...)], as far as the awaiting
    loop goes.  An exit settles the promise but leaves the timer armed: when
    it fires, up to four seconds after the start of the attempt and possibly
    during a later attempt or after the negotiation, it interrupts the
    process that has already exited.  This late signal is not recorded; the
    statements that list what a negotiation does are made up to signals
    ([withoutKills]). *)
Definition awaitConnect (p : Proc) : M bool :=
  evs ← ask (λ env h, procEvents env h connectTimeout);
  match race evs with
  | Connected => mret true
  | Exited => mret false
  | TimedOut => kill p "SIGINT";; mret false
  end.

(** The loop of [connectRFCOMM] over the candidate channels. *)
Fixpoint tryChannels (addr : string) (channels : list Z) : M unit :=
  match channels with
  | [] =>
      throw (Err "Failed to open RFCOMM on any available channel. Your mobile app needs to be running first.")
  | ch :: channels' =>
      execIgnoringResult "rfcomm release 0";;
      p ← spawn "rfcomm" ["connect"; "rfcomm0"; addr; pretty ch];
      ok ← awaitConnect p;
      if ok : bool then
        assignThis (λ bt, {| deviceAddress := deviceAddress bt;
                             rfcommProc := Some p;
                             rfcommFd := rfcommFd bt |});;
        fd ← openSync "/dev/rfcomm0" "w";
        assignThis (λ bt, {| deviceAddress := deviceAddress bt;
                             rfcommProc := rfcommProc bt;
                             rfcommFd := Some fd |})
      else tryChannels addr channels'
  end.

(** [connectRFCOMM(addr)] *)
Definition connectRFCOMM (addr : string) : M unit :=
  tryChannels addr knownChannels.

(** [startConnection(deviceIdentifier)]; an absent or empty identifier falls
    back to the configured address. *)
Definition startConnection (deviceIdentifier : string) : M unit :=
  bt ← this;
  addr ← resolveAddress (if truthy_string deviceIdentifier then deviceIdentifier
                         else deviceAddress bt);
  assignThis (λ bt, {| deviceAddress := addr;
                       rfcommProc := rfcommProc bt;
                       rfcommFd := rfcommFd bt |});;
  ensurePaired addr;;
  connectRFCOMM addr.

(** ** JSON text of a message *)

Definition DQ : ascii := "034"%char.

Definition quoted (s : string) : string :=
  String DQ (s +:+ String DQ EmptyString).

(** The string literal of a type code, as assigned to [measureType]. *)
Definition typeName (mt : MeasurementType) : string :=
  match mt with
  | HeartRate => "HeartRate"
  | BreathFrequency => "BreathFrequency"
  | Respiration => "Respiration"
  | AccelerationX => "AccelerationX"
  | AccelerationY => "AccelerationY"
  | AccelerationZ => "AccelerationZ"
  | Position => "Position"
  | R2R => "R2R"
  | ECG => "ECG"
  end.

(** The JSON text of a number or an array of numbers.  [JSON.stringify]
    prints an integer with all its digits as long as it is exact, that is up
    to [2^53 - 1] in absolute value ([safeInteger]); a statement that fixes
    the text of a message assumes numbers in this range. *)
Definition stringifyValue (v : Value) : string :=
  match v with
  | VNum n => pretty n
  | VArr ns => "[" +:+ String.concat "," (pretty <$> ns) +:+ "]"
  end.

(** [JSON.stringify(msg)] for [msg: Measurement]; the properties come in the
    order in which the object literal lists them. *)
Definition stringify (msg : Measurement) : string :=
  "{" +:+ quoted "date" +:+ ":" +:+ pretty (date msg)
  +:+ "," +:+ quoted "value" +:+ ":" +:+ stringifyValue (value msg)
  +:+ "," +:+ quoted "userId" +:+ ":" +:+ pretty (userId msg)
  +:+ "," +:+ quoted "measureType" +:+ ":" +:+ quoted (typeName (measureType msg))
  +:+ "}".

(** ** Playback driver *)

(** Truthiness of a property value: an array is truthy, a number is truthy
    unless it is zero. *)
Definition truthy (v : Value) : bool :=
  match v with
  | VNum n => negb (n =? 0)
  | VArr _ => true
  end.

(** One of the seven blocks
    [if (datum.key) { const msg = {date: Date.now(), value: datum.key,
    userId: datum.userId, measureType: mt};
    await bluetoothClient.sendMessage(JSON.stringify(msg)); }]. *)
Definition sendField (datum : DataGroup) (key : string) (mt : MeasurementType)
  : M unit :=
  match fields datum !! key with
  | Some v =>
      if truthy v then
        d ← dateNow;
        sendMessage (stringify {| date := d; value := v;
                                  userId := group_userId datum;
                                  measureType := mt |})
      else mret tt
  | None => mret tt
  end.

(** The seven blocks, in the order of the source. *)
Definition sendGroup (datum : DataGroup) : M unit :=
  sendField datum "heartRate" HeartRate;;
  sendField datum "breathFrequency" BreathFrequency;;
  sendField datum "respiration" Respiration;;
  sendField datum "accelerationX" AccelerationX;;
  sendField datum "accelerationY" AccelerationY;;
  sendField datum "accelerationZ" AccelerationZ;;
  sendField datum "position" Position.

(** [waitDelta(i, timeDeltas)] *)
Definition waitDelta (i : nat) (timeDeltas : list Z) : M unit :=
  match timeDeltas !! i with
  | Some delay => sleep (delay * 1000)
  | None => mret tt
  end.

(** [Array.from(data.keys()).sort((a, b) => a - b)] *)
Definition sortedTimestamps (data : gmap Z DataGroup) : list Z :=
  merge_sort (≤) (map_to_list data).*1.

(** [sortedTimestamps.slice(1).map((key, i) => key - sortedTimestamps[i])] *)
Definition timeDeltas (sortedTimestamps : list Z) : list Z :=
  imap (λ i key, key - default 0 (sortedTimestamps !! i))
       (drop 1 sortedTimestamps).

(** The [for] loop of [prepareAndSendMessages], from index [i] on; [rest]
    is [sortedTimestamps.slice(i)]. *)
Fixpoint playFrom (data : gmap Z DataGroup) (deltas : list Z)
    (i : nat) (rest : list Z) : M unit :=
  match rest with
  | [] => mret tt
  | ts :: rest' =>
      stop ← isAborted;
      if stop : bool then mret tt
      else
        emit (EvGroup ts);;
        match data !! ts with
        | None => playFrom data deltas (S i) rest'
        | Some datum =>
            sendGroup datum;;
            waitDelta i deltas;;
            playFrom data deltas (S i) rest'
        end
  end.

(** [prepareAndSendMessages(data, bluetoothClient, abortSignal)] *)
Definition prepareAndSendMessages (data : gmap Z DataGroup) : M unit :=
  let sorted := sortedTimestamps data in
  let deltas := timeDeltas sorted in
  playFrom data deltas 0 sorted.

(** The playback of an input file, once it has been parsed and the
    connection is up. *)
Definition replay (input : list UserData) : M unit :=
  prepareAndSendMessages (groupMeasurementsByTimestamp (flatMeasurementData input)).

(** ** Vocabulary of the statements about runs *)

(** The fixed order in which the driver looks at the fields. *)
Definition fieldOrder : list (string * MeasurementType) :=
  [("heartRate", HeartRate); ("breathFrequency", BreathFrequency);
   ("respiration", Respiration); ("accelerationX", AccelerationX);
   ("accelerationY", AccelerationY); ("accelerationZ", AccelerationZ);
   ("position", Position)].

(** The line written for a field. *)
Definition messageLine (datum : DataGroup) (clock : Z) (v : Value)
    (mt : MeasurementType) : string :=
  stringify {| date := clock; value := v; userId := group_userId datum;
               measureType := mt |} +:+ String LF EmptyString.

(** One write per field that the driver finds truthy, in the given order,
    each dated by the clock at the moment it is built. *)
Fixpoint expectedWrites (env : Env) (fd : Z) (datum : DataGroup)
    (order : list (string * MeasurementType)) (h : list Event) : list Event :=
  match order with
  | [] => []
  | (key, mt) :: order' =>
      match fields datum !! key with
      | Some v =>
          if truthy v then
            let ev := EvWrite fd (messageLine datum (now env h) v mt) in
            ev :: expectedWrites env fd datum order' (h ++ [ev])
          else expectedWrites env fd datum order' h
      | None => expectedWrites env fd datum order' h
      end
  end.

(** The driver's blocks for the fields of a list, one after the other. *)
Fixpoint sendFields (datum : DataGroup) (order : list (string * MeasurementType))
  : M unit :=
  match order with
  | [] => mret tt
  | (key, mt) :: order' => sendField datum key mt;; sendFields datum order'
  end.

(** The number of fields of a group that the driver finds truthy. *)
Definition messageCount (datum : DataGroup) : nat :=
  length (filter (λ km : string * MeasurementType,
                    truthy <$> fields datum !! km.1 = Some true) fieldOrder).

(** An event without the payload of a write. *)
Definition erase (ev : Event) : Event :=
  match ev with
  | EvWrite fd _ => EvWrite fd EmptyString
  | _ => ev
  end.


(** The wait that follows the group of [ts] when [rest] are the timestamps
    still to come: none after the final group. *)
Definition expectedWait (ts : Z) (rest : list Z) : list Event :=
  match rest with
  | [] => []
  | next :: _ => [EvSleep ((next - ts) * 1000)]
  end.


(** What a playback that is not cancelled looks like, payloads erased: for
    each timestamp its marker and one write per message, followed by a wait
    for the difference to the next timestamp when there is a next one. *)
Fixpoint expectedShape (fd : Z) (data : gmap Z DataGroup) (sorted : list Z)
  : list Event :=
  match sorted with
  | [] => []
  | ts :: rest =>
      EvGroup ts
      :: replicate (from_option messageCount 0%nat (data !! ts))
                   (EvWrite fd EmptyString)
      ++ expectedWait ts rest
      ++ expectedShape fd data rest
  end.

(** What a playback looks like when the loop has picked [j] groups before
    it ended: every group it picked has its messages and its wait. *)
Fixpoint playedShape (fd : Z) (data : gmap Z DataGroup) (j : nat)
    (sorted : list Z) : list Event :=
  match j, sorted with
  | S j', ts :: rest =>
      EvGroup ts
      :: replicate (from_option messageCount 0%nat (data !! ts))
                   (EvWrite fd EmptyString)
      ++ expectedWait ts rest
      ++ playedShape fd data j' rest
  | _, _ => []
  end.

(** The last character of a string. *)
Fixpoint lastChar (s : string) : option ascii :=
  match s with
  | EmptyString => None
  | String c s' => match lastChar s' with Some d => Some d | None => Some c end
  end.

(** The line handed to the device for a message: the message, followed by
    a newline unless it already ends with one. *)
Definition lineOf (message : string) : string :=
  if endsWith message (String LF EmptyString) then message
  else message +:+ String LF EmptyString.

(** ** Vocabulary of the statements about the resolver and the negotiator *)

Record BluetoothDevice := {
  address : string;
  name : string;
  paired : bool
}.

(** The paired devices listed by the command, one per line of the form
    [Device <address> <name>]. *)
Definition pairedDevices (stdout : string) : list BluetoothDevice :=
  omap (λ line, (λ m : string * string,
                   {| address := m.1; name := m.2; paired := true |})
                  <$> matchDevice line)
       (split LF stdout).

(** The name of the device contains the fragment, case-insensitively. *)
Definition nameContains (fragment : string) (d : BluetoothDevice) : bool :=
  includes (toLowerCase (name d)) (toLowerCase fragment).

(** The process spawned for a candidate channel. *)
Definition connectProc (addr : string) (ch : Z) : Proc :=
  {| proc_cmd := "rfcomm";
     proc_args := ["connect"; "rfcomm0"; addr; pretty ch] |}.



(** A line of the listing in the documented form. *)
Definition deviceLine (addr name : string) : string :=
  "Device " +:+ addr +:+ " " +:+ name.

(** ** Sample inputs and environments *)

Definition sample_clock (h : list Event) : Z :=
  1700000000000 + Z.of_nat (length h).

Definition sample_address : string := "FC:02:96:04:33:AB".

(** The listing printed by the paired-devices command, two devices. *)
Definition sample_listing : string :=
  deviceLine sample_address "Xiaomi Phone" +:+ String LF EmptyString
  +:+ deviceLine "AA:BB:CC:DD:EE:FF" "Galaxy Tab" +:+ String LF EmptyString.

(** A peer that listens on channel 26 only: the attempt on channel 12 stays
    silent, the one on channel 19 is refused. *)
Definition sample_output (args : list string) : list ProcEvent :=
  match last args with
  | Some "19" => [Stderr "Can't connect RFCOMM socket: Connection refused"; Exit 1]
  | Some "26" => [Stdout "Connected /dev/rfcomm0 to FC:02:96:04:33:AB on channel 26"]
  | _ => []
  end.

Definition output_of (addr : string) (ch : Z) : list ProcEvent :=
  sample_output (proc_args (connectProc addr ch)).

Definition env_live : Env := {|
  now := sample_clock;
  aborted := λ _, false;
  execStdout := λ _ _, Some sample_listing;
  procEvents := λ h _,
    match last h with
    | Some (EvSpawn p) => sample_output (proc_args p)
    | _ => []
    end;
  openResult := λ _ _ _, Some 3;
  writeFails := λ _ _ _, false
|}.


Definition isWrite (ev : Event) : bool :=
  match ev with EvWrite _ _ => true | _ => false end.

(** The cancellation signal is set as soon as one message has been
    written. *)
Definition env_cancel : Env := {|
  now := sample_clock;
  aborted := λ h, existsb isWrite h;
  execStdout := λ _ _, Some sample_listing;
  procEvents := λ _ _, [];
  openResult := λ _ _ _, Some 3;
  writeFails := λ _ _ _, false
|}.

Definition world_closed : World := {|
  history := [];
  client := {| deviceAddress := EmptyString; rfcommProc := None; rfcommFd := None |}
|}.

Definition world_open : World := {|
  history := [];
  client := {| deviceAddress := sample_address;
               rfcommProc := Some (connectProc sample_address 26);
               rfcommFd := Some 3 |}
|}.

Definition heart (ts : Z) (beats : Z) (user : Z) : Measurement :=
  {| date := ts; value := VArr [beats]; userId := user; measureType := HeartRate |}.

Definition ecg (ts : Z) (user : Z) : Measurement :=
  {| date := ts; value := VArr [1; 2; 3]; userId := user; measureType := ECG |}.

(** Two measurements of two users at the same timestamp. *)
Definition two_users : list Measurement :=
  [ heart 1 59 1;
    {| date := 1; value := VArr [12]; userId := 2; measureType := Respiration |} ].

(** Three timestamps, out of order, with an ignored measurement. *)
Definition three_groups : list Measurement :=
  [ heart 103 60 1; ecg 101 1; heart 100 59 1; heart 107 61 1 ].

Definition two_groups : list Measurement := [ heart 100 59 1; heart 103 60 1 ].

Definition group100 : DataGroup :=
  {| timestamp := 100; group_userId := 1;
     fields := {["heartRate" := VArr [59]]} |}.

(** The history once the only message of the first group has been written. *)
Definition sent100 : list Event :=
  [ EvGroup 100;
    EvWrite 3 (messageLine group100 (sample_clock [EvGroup 100])
                 (VArr [59]) HeartRate) ].

(** An input file with one sample whose value is the number zero. *)
Definition zero_input : list UserData :=
  [ {| data := [ {| date := 1; value := VNum 0; userId := 1;
                    measureType := AccelerationX |} ] |} ].

(** The input file of the design note: one user, one sample. *)
Definition single_input : list UserData :=
  [ {| data := [ heart 1 59 1 ] |} ].

(** ** Vocabulary of the further statements about the playback *)

(** The events a playback may add to the history, for a client whose
    descriptor is [fd]: group markers, waits, and writes on that descriptor. *)
Definition playbackEvent (fd : option Z) (ev : Event) : Prop :=
  match ev with
  | EvGroup _ | EvSleep _ => True
  | EvWrite fd' _ => fd = Some fd'
  | _ => False
  end.

(** What holds of the world [w'] and the outcome [r] reached from [w] by a
    piece of the playback: the object is untouched, the history has grown by
    playback events only, and a failure is either the not-connected error of
    a client without descriptor or the error of the write that comes last in
    the history. *)
Definition playbackPost {A} (env : Env) (w w' : World) (r : Error + A) : Prop :=
  client w' = client w
  ∧ (∃ evs, history w' = history w ++ evs
            ∧ Forall (playbackEvent (rfcommFd (client w))) evs)
  ∧ match r with
    | inr _ => True
    | inl e =>
        match rfcommFd (client w) with
        | None => e = NotConnected
        | Some fd =>
            e = WriteError fd
            ∧ ∃ h bytes, history w' = h ++ [EvWrite fd bytes]
                         ∧ writeFails env h fd bytes = true
        end
    end.

Definition respectsPlayback {A} (c : M A) : Prop :=
  ∀ env w, playbackPost env w (run c env w).1 (run c env w).2.

(** The sum of a list of integers. *)
Definition sumZ (l : list Z) : Z := foldr Z.add 0 l.

(** The text a receiver gets when the given messages are sent one after the
    other. *)
Fixpoint wire (messages : list string) : string :=
  match messages with
  | [] => EmptyString
  | message :: messages' => lineOf message +:+ wire messages'
  end.

Definition notLF (c : ascii) : bool := negb (bool_decide (c = LF)).


(** ** The rest of the RFCOMM transport *)

(** [closeConnection()].  The outcome of [fs.closeSync] is discarded by an
    empty [catch] and the descriptor is not used again; closing it is not
    recorded in the history. *)
Definition closeConnection : M unit :=
  bt ← this;
  match rfcommFd bt with
  | Some _ =>
      assignThis (λ bt, {| deviceAddress := deviceAddress bt;
                           rfcommProc := rfcommProc bt;
                           rfcommFd := None |})
  | None => mret tt
  end;;
  execIgnoringResult "rfcomm release 0";;
  bt ← this;
  match rfcommProc bt with
  | Some p =>
      kill p "SIGINT";;
      assignThis (λ bt, {| deviceAddress := deviceAddress bt;
                           rfcommProc := None;
                           rfcommFd := rfcommFd bt |})
  | None => mret tt
  end.

(** [try { c } catch (error) { handler(error) }] *)
Definition tryCatch {A} (c : M A) (handler : Error → M A) : M A := λ env w,
  match c env w with
  | (w', inl e) => handler e env w'
  | (w', inr a) => (w', inr a)
  end.

(** ** Vocabulary of the statements about the transport *)

(** The events a channel negotiation for [addr] may add to the history. *)
Definition connectEvent (addr : string) (ev : Event) : Prop :=
  match ev with
  | EvExec cmd => cmd = "rfcomm release 0"
  | EvSpawn p => ∃ ch, ch ∈ knownChannels ∧ p = connectProc addr ch
  | EvKill p signal =>
      signal = "SIGINT" ∧ ∃ ch, ch ∈ knownChannels ∧ p = connectProc addr ch
  | EvOpen path flags => path = "/dev/rfcomm0" ∧ flags = "w"
  | _ => False
  end.

(** The waits of a history, in milliseconds. *)
Definition sleepsOf (h : list Event) : list Z :=
  omap (λ ev, match ev with EvSleep ms => Some ms | _ => None end) h.

(** A computation that does not wait. *)
Definition keepsSleeps {A} (c : M A) : Prop :=
  ∀ env w, sleepsOf (history (run c env w).1) = sleepsOf (history w).

(** A chunk of the standard error of the connect process. *)
Definition isStderr (ev : ProcEvent) : bool :=
  match ev with Stderr _ => true | _ => false end.

(** The lines joined into one text, each followed by a newline. *)
Definition unlines (lines : list string) : string :=
  foldr (λ line rest, line +:+ String LF rest) EmptyString lines.


(** A device as it can appear in a listing: an address of the documented
    form and a name that is not empty and holds no line terminator. *)
Definition wellFormedDevice (d : BluetoothDevice) : Prop :=
  isAddressPattern (address d) = true
  ∧ name d ≠ EmptyString
  ∧ stringForall isDot (name d) = true
  ∧ paired d = true.

(** * The variant of the class in [src/bluetooth.ts]

    This variant keeps a connected flag instead of a descriptor.  Its
    methods are functions of the object they are called on; a method that
    assigns to a field returns the object it leaves behind.  No method
    assigns to a field on a path that ends in an error. *)

Module Legacy.

Record Bluetooth := {
  deviceAddress : string;
  deviceName : string;
  isConnected : bool;
  rfcommChannel : string;
  rfcommProcess : option Proc
}.

(** [new Bluetooth()], from the two environment variables. *)
Definition create (envAddress envName : string) : Bluetooth :=
  {| deviceAddress := envAddress; deviceName := envName;
     isConnected := false; rfcommChannel := EmptyString;
     rfcommProcess := None |}.

Definition ConfigurationMissing : Error :=
  Err "Device address or name is required. Set BLUETOOTH_DEVICE_ADDRESS or BLUETOOTH_DEVICE_NAME environment variable.".

Definition DeviceNotFound (identifier : string) : Error :=
  Err ("Device not found: " +:+ identifier +:+ ". Make sure the device is paired.").

(** White space, for byte strings: tab, line feed, vertical tab, form feed,
    carriage return and space. *)
Definition isWhiteSpace (c : ascii) : bool :=
  let n := nat_of_ascii c in
  (((9 <=? n) && (n <=? 13)) || (n =? 32))%nat.

Fixpoint trimStart (s : string) : string :=
  match s with
  | EmptyString => EmptyString
  | String c s' => if isWhiteSpace c then trimStart s' else s
  end.

(** [s.trim()] *)
Definition trim (s : string) : string :=
  String.rev (trimStart (String.rev (trimStart s))).

(** [discoverPairedDevices()] *)
Definition discoverPairedDevices : M (list BluetoothDevice) :=
  tryCatch
    (stdout ← exec "bluetoothctl devices Paired";
     let lines := filter (λ line, truthy_string (trim line) = true)
                         (split LF stdout) in
     mret (omap (λ line, (λ m : string * string,
                            {| address := m.1; name := m.2; paired := true |})
                           <$> matchDevice line) lines))
    (λ _, mret []).

(** The test of [findDevice]. *)
Definition isDevice (nameOrAddress : string) (device : BluetoothDevice) : bool :=
  includes (toLowerCase (name device)) (toLowerCase nameOrAddress)
  || bool_decide (address device = nameOrAddress).

(** [findDevice(nameOrAddress)] *)
Definition findDevice (nameOrAddress : string) : M (option BluetoothDevice) :=
  devices ← discoverPairedDevices;
  mret (List.find (isDevice nameOrAddress) devices).

(** [startConnection(deviceIdentifier)]; the [catch] block logs the error and
    throws it again. *)
Definition startConnection (bt : Bluetooth) (deviceIdentifier : string)
  : M Bluetooth :=
  let identifier :=
    if truthy_string deviceIdentifier then deviceIdentifier
    else if truthy_string (deviceAddress bt) then deviceAddress bt
    else deviceName bt in
  if truthy_string identifier then
    device ← findDevice identifier;
    match device with
    | None =>
        discoverPairedDevices;;
        throw (DeviceNotFound identifier)
    | Some device =>
        exec ("bluetoothctl connect " +:+ address device);;
        sleep 2000;;
        mret {| deviceAddress := address device;
                deviceName := deviceName bt;
                isConnected := true;
                rfcommChannel := rfcommChannel bt;
                rfcommProcess := rfcommProcess bt |}
    end
  else throw ConfigurationMissing.

(** [sendViaSPP(message)]: the services of the device are listed and the
    message is logged. *)
Definition sendViaSPP (bt : Bluetooth) (message : string) : M unit :=
  if negb (isConnected bt) || negb (truthy_string (deviceAddress bt))
  then mret tt
  else tryCatch (exec ("sdptool browse " +:+ deviceAddress bt);; mret tt)
                (λ _, mret tt).

(** [sendMessage(message)] *)
Definition sendMessage (bt : Bluetooth) (message : string) : M unit :=
  if negb (isConnected bt) then mret tt
  else tryCatch (sendViaSPP bt message) (λ _, mret tt).

(** [await execAsync(cmd).catch(() => {})] *)
Definition execCaught (cmd : string) : M unit :=
  tryCatch (exec cmd;; mret tt) (λ _, mret tt).

(** [closeConnection()] *)
Definition closeConnection (bt : Bluetooth) : M Bluetooth :=
  tryCatch
    ((if truthy_string (rfcommChannel bt)
      then execCaught "sudo rfcomm release rfcomm0" else mret tt);;
     (if truthy_string (deviceAddress bt)
      then execCaught ("bluetoothctl disconnect " +:+ deviceAddress bt)
      else mret tt);;
     mret {| deviceAddress := deviceAddress bt;
             deviceName := deviceName bt;
             isConnected := false;
             rfcommChannel := EmptyString;
             rfcommProcess := rfcommProcess bt |})
    (λ _, mret bt).

(** The getter [connected]. *)
Definition connected (bt : Bluetooth) : bool := isConnected bt.

(** The message of the test script. *)
Definition testMessage : string :=
  "{" +:+ quoted "test" +:+ ": " +:+ quoted "message" +:+ "}".

(** [testBluetooth()], the script at the head of [test-bluetooth.ts]. *)
Definition testBluetooth (bluetooth : Bluetooth) : M unit :=
  tryCatch
    (devices ← discoverPairedDevices;
     match devices with
     | device :: _ =>
         tryCatch
           (bt1 ← startConnection bluetooth (address device);
            sendMessage bt1 testMessage;;
            closeConnection bt1;;
            mret tt)
           (λ _, mret tt)
     | [] => mret tt
     end)
    (λ _, mret tt).

(** The events the methods of this variant may add to the history: commands
    and the wait of [startConnection]. *)
Definition legacyEvent (ev : Event) : Prop :=
  match ev with
  | EvExec _ => True
  | EvSleep ms => ms = 2000
  | _ => False
  end.

(** What a method of this variant leaves behind: the object of the other
    variant is untouched and the history has grown by commands and waits
    only. *)
Definition legacyFootprint {A} (c : M A) : Prop :=
  ∀ env w,
    client (run c env w).1 = client w
    ∧ ∃ evs, history (run c env w).1 = history w ++ evs
             ∧ Forall legacyEvent evs.

End Legacy.

(** ** Sample inputs of the further statements *)

(** The first write fails. *)
Definition env_broken : Env := {|
  now := sample_clock;
  aborted := λ _, false;
  execStdout := λ _ _, Some sample_listing;
  procEvents := λ _ _, [];
  openResult := λ _ _ _, Some 3;
  writeFails := λ _ _ _, true
|}.

(** The commands fail. *)
Definition env_down : Env := {|
  now := sample_clock;
  aborted := λ _, false;
  execStdout := λ _ _, None;
  procEvents := λ _ _, [];
  openResult := λ _ _ _, None;
  writeFails := λ _ _ _, false
|}.


(** ** Vocabulary of the statements about the resolver and the negotiator *)









Definition isKill (ev : Event) : bool :=
  match ev with EvKill _ _ => true | _ => false end.

(** A history without the signals sent to processes. *)
Definition withoutKills (evs : list Event) : list Event :=
  filter (λ ev, isKill ev = false) evs.

(** How every attempt begins: the local slot is released and the connect
    process for the channel is spawned. *)
Definition attemptStart (addr : string) (ch : Z) : list Event :=
  [EvExec "rfcomm release 0"; EvSpawn (connectProc addr ch)].

(** ** Vocabulary of the statements about the text of a message *)



(** ** A further sample environment *)

(** * Properties *)

(** ** The grouping, entry by entry *)

Section pipeline_facts.
Implicit Types (ms : list Measurement) (m : Measurement) (t : Z).

Lemma groupMeasurementsByTimestamp_snoc ms m :
  groupMeasurementsByTimestamp (ms ++ [m])
  = groupStep (groupMeasurementsByTimestamp ms) m.
Proof. unfold groupMeasurementsByTimestamp. by rewrite fold_left_app. Qed.

Lemma retainedAt_snoc_in t ms m :
  retained m = true → date m = t →
  retainedAt t (ms ++ [m]) = retainedAt t ms ++ [m].
Proof.
  intros Hr Hd. unfold retainedAt. rewrite filter_app. f_equal.
  rewrite filter_cons. case_decide as Hc; [done|]. destruct Hc; done.
Qed.

Lemma retainedAt_snoc_out t ms m :
  ¬ (retained m = true ∧ date m = t) →
  retainedAt t (ms ++ [m]) = retainedAt t ms.
Proof.
  intros Hn. unfold retainedAt. rewrite filter_app.
  rewrite filter_cons. case_decide; [done|]. by rewrite filter_nil, app_nil_r.
Qed.

Lemma fieldsAt_snoc_in t ms m :
  retained m = true → date m = t →
  fieldsAt t (ms ++ [m]) = assign (fieldsAt t ms) m.
Proof.
  intros Hr Hd. unfold fieldsAt.
  by rewrite retainedAt_snoc_in, fold_left_app.
Qed.

Lemma fieldsAt_snoc_out t ms m :
  ¬ (retained m = true ∧ date m = t) →
  fieldsAt t (ms ++ [m]) = fieldsAt t ms.
Proof. intros Hn. unfold fieldsAt. by rewrite retainedAt_snoc_out. Qed.

Lemma fieldsAt_no_retained t ms : retainedAt t ms = [] → fieldsAt t ms = ∅.
Proof. unfold fieldsAt. by intros ->. Qed.

(** The last two statements of the loop body: the assignment
    [group.get(timestamp)[measureKey] = measurement.value] under its guard. *)
Lemma assign_step_lookup (grp : gmap Z DataGroup) m t :
  match MeasurementTypeEnum (measureType m) with
  | Some measureKey =>
      if truthy_string measureKey
      then alter (setField measureKey (value m)) (date m) grp
      else grp
  | None => grp
  end !! t
  = if decide (t = date m)
    then (λ g, {| timestamp := timestamp g; group_userId := group_userId g;
                  fields := assign (fields g) m |}) <$> grp !! t
    else grp !! t.
Proof.
  unfold assign.
  destruct (MeasurementTypeEnum (measureType m)) as [k|];
    [destruct (truthy_string k)|]; case_decide as Ht; subst;
    rewrite ?lookup_alter_eq, ?lookup_alter_ne by done;
    try done; by destruct (grp !! date m) as [[]|].
Qed.

(** The loop of [groupMeasurementsByTimestamp], read entry by entry. *)
Lemma groupMeasurementsByTimestamp_lookup ms t :
  groupMeasurementsByTimestamp ms !! t = groupAt t ms.
Proof.
  induction ms as [|m ms IH] using rev_ind.
  { unfold groupMeasurementsByTimestamp, groupAt. simpl. apply lookup_empty. }
  rewrite groupMeasurementsByTimestamp_snoc.
  unfold groupStep.
  destruct (ignoreMeasurementType (measureType m)) eqn:Hign.
  { (* skipped by [continue] *)
    assert (¬ (retained m = true ∧ date m = t)) as Hn
      by (unfold retained; rewrite Hign; intros [? _]; done).
    rewrite IH. unfold groupAt.
    by rewrite retainedAt_snoc_out, fieldsAt_snoc_out. }
  assert (Hr : retained m = true) by (unfold retained; by rewrite Hign).
  cbv zeta. rewrite assign_step_lookup.
  destruct (decide (t = date m)) as [->|Hne].
  - unfold groupAt. rewrite retainedAt_snoc_in by done.
    rewrite fieldsAt_snoc_in by done.
    destruct (decide (is_Some _)) as [Hs|Hs].
    + rewrite IH in *. unfold groupAt in *.
      destruct (retainedAt (date m) ms) as [|m0 l] eqn:Hl; simpl in *.
      * by destruct Hs.
      * done.
    + rewrite lookup_insert_eq. rewrite IH in Hs. unfold groupAt in Hs.
      destruct (retainedAt (date m) ms) as [|m0 l] eqn:Hl; simpl in *.
      * by rewrite (fieldsAt_no_retained _ _ Hl).
      * exfalso. apply Hs. eauto.
  - assert (¬ (retained m = true ∧ date m = t)) as Hn
      by (intros [_ ?]; congruence).
    unfold groupAt.
    rewrite retainedAt_snoc_out, fieldsAt_snoc_out by done.
    destruct (decide (is_Some _)); [|rewrite lookup_insert_ne by done]; apply IH.
Qed.

Lemma groupMeasurementsByTimestamp_timestamp ms t g :
  groupMeasurementsByTimestamp ms !! t = Some g → timestamp g = t.
Proof.
  rewrite groupMeasurementsByTimestamp_lookup. unfold groupAt.
  destruct (head _); naive_solver.
Qed.

Lemma retainedAt_retainedMeasurements t ms :
  retainedAt t (retainedMeasurements ms) = retainedAt t ms.
Proof.
  unfold retainedAt, retainedMeasurements.
  apply list_filter_filter_l. by intros m [Hr _].
Qed.

(** ** Measure keys *)

Lemma measureKeyOf_enum mt k :
  measureKeyOf mt = Some k → MeasurementTypeEnum mt = Some k.
Proof.
  unfold measureKeyOf. destruct (MeasurementTypeEnum mt) as [k'|]; [|done].
  destruct (truthy_string k'); naive_solver.
Qed.

Lemma MeasurementTypeEnum_inj a b k :
  MeasurementTypeEnum a = Some k → MeasurementTypeEnum b = Some k → a = b.
Proof. destruct a, b; simpl; intros; simplify_eq; done. Qed.

Lemma measureKeyOf_inj a b k :
  measureKeyOf a = Some k → measureKeyOf b = Some k → a = b.
Proof. eauto using MeasurementTypeEnum_inj, measureKeyOf_enum. Qed.

Lemma retained_measureKeyOf mt :
  ignoreMeasurementType mt = false → is_Some (measureKeyOf mt).
Proof. destruct mt; intros; try done; by eexists. Qed.

Lemma assign_measureKeyOf (f : gmap string Value) m :
  assign f m = match measureKeyOf (measureType m) with
               | Some k => <[k := value m]> f
               | None => f
               end.
Proof.
  unfold assign, measureKeyOf.
  destruct (MeasurementTypeEnum _) as [k|]; [|done]. by destruct (truthy_string k).
Qed.

(** Last write wins within one group. *)
Lemma fold_assign_lookup (l : list Measurement) (f : gmap string Value) k :
  fold_left assign l f !! k
  = match last (filter (λ m, measureKeyOf (measureType m) = Some k) l) with
    | Some m => Some (value m)
    | None => f !! k
    end.
Proof.
  induction l as [|m l IH] using rev_ind; [done|].
  rewrite fold_left_app, filter_app, last_app. simpl.
  rewrite assign_measureKeyOf, filter_cons, filter_nil.
  destruct (decide (measureKeyOf (measureType m) = Some k)) as [Hk|Hk].
  - rewrite Hk. simpl. by rewrite lookup_insert_eq.
  - simpl. destruct (measureKeyOf (measureType m)) as [k'|]; [|done].
    rewrite lookup_insert_ne by congruence. done.
Qed.

Lemma fieldsAt_lookup t ms k :
  fieldsAt t ms !! k
  = value <$> last (filter (λ m, measureKeyOf (measureType m) = Some k)
                           (retainedAt t ms)).
Proof.
  unfold fieldsAt. rewrite fold_assign_lookup, lookup_empty.
  by destruct (last _).
Qed.

End pipeline_facts.

(** ** Ignored types, group owner *)

Section grouping_claims.
Implicit Types (ms : list Measurement) (m : Measurement) (t : Z).

Lemma groupMeasurementsByTimestamp_retained ms :
  groupMeasurementsByTimestamp ms
  = groupMeasurementsByTimestamp (retainedMeasurements ms).
Proof.
  apply map_eq. intros t. rewrite !groupMeasurementsByTimestamp_lookup.
  unfold groupAt, fieldsAt. by rewrite retainedAt_retainedMeasurements.
Qed.

Lemma retainedMeasurements_ignored ms1 ms2 m :
  ignoreMeasurementType (measureType m) = true →
  retainedMeasurements (ms1 ++ m :: ms2) = retainedMeasurements (ms1 ++ ms2).
Proof.
  intros Hi. unfold retainedMeasurements.
  rewrite !filter_app, filter_cons_False; [done|].
  unfold retained. by rewrite Hi.
Qed.

Lemma group_field_origin ms t g k v :
  groupMeasurementsByTimestamp ms !! t = Some g →
  fields g !! k = Some v →
  ∃ m, m ∈ ms ∧ retained m = true ∧ date m = t
       ∧ measureKeyOf (measureType m) = Some k ∧ value m = v.
Proof.
  rewrite groupMeasurementsByTimestamp_lookup. unfold groupAt.
  destruct (head (retainedAt t ms)) as [m0|]; [|done].
  intros [= <-]. simpl. rewrite fieldsAt_lookup.
  destruct (last _) as [m|] eqn:Hl; [|done]. intros [= <-].
  apply last_Some_elem_of in Hl.
  apply list_elem_of_filter in Hl as [Hk Hl].
  apply list_elem_of_filter in Hl as [[Hr Hd] Hin].
  eauto 10.
Qed.

(** The types that are not forwarded are the two ignored codes. *)
Lemma ignored_iff_not_forwarded mt :
  ignoreMeasurementType mt = true ↔ mt ∉ fieldOrder.*2.
Proof.
  destruct mt;
    (split;
     [ intros H; try discriminate H;
       apply (bool_decide_unpack _); vm_compute; exact I
     | intros H; try reflexivity; exfalso; apply H;
       apply (bool_decide_unpack _); vm_compute; exact I ]).
Qed.

(** C2: a measurement whose type is not among the forwarded ones, that is,
    one of the two ignored codes, is dropped before grouping.  The grouping
    of a sequence is the grouping of its retained measurements; removing an
    ignored measurement from any position changes nothing; and no group
    holds a property under the measure key of an ignored code. *)
Theorem ignored_measurements_are_dropped ms :
  (∀ mt, mt ∉ fieldOrder.*2 ↔ ignoreMeasurementType mt = true)
  ∧ groupMeasurementsByTimestamp ms
    = groupMeasurementsByTimestamp (retainedMeasurements ms)
  ∧ (∀ ms1 ms2 m,
       ignoreMeasurementType (measureType m) = true →
       groupMeasurementsByTimestamp (ms1 ++ m :: ms2)
       = groupMeasurementsByTimestamp (ms1 ++ ms2))
  ∧ (∀ t g mt k,
       groupMeasurementsByTimestamp ms !! t = Some g →
       ignoreMeasurementType mt = true →
       MeasurementTypeEnum mt = Some k →
       fields g !! k = None).
Proof.
  split_and!.
  - intros mt. symmetry. apply ignored_iff_not_forwarded.
  - apply groupMeasurementsByTimestamp_retained.
  - intros ms1 ms2 m Hi.
    rewrite (groupMeasurementsByTimestamp_retained (ms1 ++ m :: ms2)).
    rewrite (groupMeasurementsByTimestamp_retained (ms1 ++ ms2)).
    by rewrite retainedMeasurements_ignored.
  - intros t g mt k Hg Hi Hk.
    destruct (fields g !! k) as [v|] eqn:Hf; [|done].
    destruct (group_field_origin _ _ _ _ _ Hg Hf) as (m & _ & Hr & _ & Hm & _).
    apply measureKeyOf_enum in Hm.
    unfold retained in Hr.
    by rewrite (MeasurementTypeEnum_inj _ _ _ Hm Hk), Hi in Hr.
Qed.

(** C10: the group of a timestamp is labelled with the user of the first
    retained measurement bearing that timestamp, and measurements that come
    later never change the label, whichever user they belong to. *)
Theorem group_userId_is_first_retained ms t :
  group_userId <$> groupMeasurementsByTimestamp ms !! t
    = userId <$> head (retainedAt t ms)
  ∧ (∀ ms',
       group_userId <$> groupMeasurementsByTimestamp (ms ++ ms') !! t
       = match groupMeasurementsByTimestamp ms !! t with
         | Some g => Some (group_userId g)
         | None => userId <$> head (retainedAt t ms')
         end).
Proof.
  split.
  - rewrite groupMeasurementsByTimestamp_lookup. unfold groupAt.
    by destruct (head _).
  - intros ms'. rewrite !groupMeasurementsByTimestamp_lookup. unfold groupAt.
    replace (retainedAt t (ms ++ ms')) with (retainedAt t ms ++ retainedAt t ms')
      by (unfold retainedAt; by rewrite filter_app).
    rewrite head_app.
    destruct (head (retainedAt t ms)); [done|].
    by destruct (head (retainedAt t ms')).
Qed.

End grouping_claims.
(** ** Grouping then flattening *)

Section flatten_claims.
Implicit Types (ms l : list Measurement) (m : Measurement) (t : Z).

Lemma typeOfKey_Some k mt :
  typeOfKey k = Some mt ↔ measureKeyOf mt = Some k.
Proof.
  unfold typeOfKey. split.
  - intros H%head_Some_elem_of. by apply list_elem_of_filter in H as [? _].
  - destruct mt; intros [= <-]; reflexivity.
Qed.

Lemma elem_of_groupFields g x :
  x ∈ groupFields g ↔
  ∃ k v mt, fields g !! k = Some v ∧ measureKeyOf mt = Some k
    ∧ x = {| date := timestamp g; value := v;
             userId := group_userId g; measureType := mt |}.
Proof.
  unfold groupFields. rewrite list_elem_of_omap. split.
  - intros ([k v] & Hin & Hx). apply elem_of_map_to_list in Hin. simpl in Hx.
    destruct (typeOfKey k) as [mt|] eqn:Hk; [|done].
    apply typeOfKey_Some in Hk. simplify_eq/=. eauto 10.
  - intros (k & v & mt & Hf & Hk & ->). exists (k, v). split.
    + by apply elem_of_map_to_list.
    + simpl. apply typeOfKey_Some in Hk. by rewrite Hk.
Qed.

Lemma NoDup_omap_inj {A B} (f : A → option B) (xs : list A) :
  (∀ x y z, x ∈ xs → y ∈ xs → f x = Some z → f y = Some z → x = y) →
  NoDup xs → NoDup (omap f xs).
Proof.
  intros Hinj Hnd. induction Hnd as [|x xs Hx Hnd IH]; simpl; [constructor|].
  assert (NoDup (omap f xs)) as IH'.
  { apply IH. intros ?????; apply Hinj; by constructor. }
  destruct (f x) as [z|] eqn:Hfx; [|done].
  constructor; [|done].
  intros (y & Hy & Hfy)%list_elem_of_omap.
  assert (x = y) as <-; [|done].
  eapply Hinj; [constructor|by constructor|done..].
Qed.

Lemma NoDup_groupFields g : NoDup (groupFields g).
Proof.
  unfold groupFields. apply NoDup_omap_inj; [|apply NoDup_map_to_list].
  intros [k1 v1] [k2 v2] z _ _ H1 H2. simpl in *.
  destruct (typeOfKey k1) as [mt1|] eqn:E1; [|done].
  destruct (typeOfKey k2) as [mt2|] eqn:E2; [|done].
  apply typeOfKey_Some in E1, E2. simplify_eq/=. congruence.
Qed.

Lemma elem_of_flattenGroups (groups : gmap Z DataGroup) x :
  x ∈ flattenGroups groups ↔
  ∃ t g, groups !! t = Some g ∧ x ∈ groupFields g.
Proof.
  unfold flattenGroups. rewrite list_elem_of_bind. split.
  - intros ([t g] & Hx & Hin). apply elem_of_map_to_list in Hin. eauto.
  - intros (t & g & Hg & Hx). exists (t, g). split; [done|].
    by apply elem_of_map_to_list.
Qed.

Lemma NoDup_flattenGroups (groups : gmap Z DataGroup) :
  (∀ t g, groups !! t = Some g → timestamp g = t) →
  NoDup (flattenGroups groups).
Proof.
  intros Hts. unfold flattenGroups. apply NoDup_bind.
  - intros [t1 g1] [t2 g2] y H1%elem_of_map_to_list H2%elem_of_map_to_list.
    simpl. intros (?&?&?&_&_&->)%elem_of_groupFields
                  (?&?&?&_&_&Heq)%elem_of_groupFields.
    apply Hts in H1 as Ht1. apply Hts in H2 as Ht2.
    assert (t1 = t2) as <- by (simplify_eq/=; congruence).
    f_equal. congruence.
  - intros [??] _. apply NoDup_groupFields.
  - apply NoDup_map_to_list.
Qed.

#[local] Instance sameSlot_equiv : Equivalence sameSlot.
Proof.
  unfold sameSlot. split.
  - by intros ?.
  - intros ?? [??]; by split.
  - intros ??? [??] [??]; split; congruence.
Qed.

Lemma filter_sameSlot_proper m m' l :
  sameSlot m m' → filter (sameSlot m) l = filter (sameSlot m') l.
Proof.
  intros Hs. apply list_filter_iff. intros x. split; intros Hx.
  - by rewrite <-Hs.
  - by rewrite Hs.
Qed.

Lemma Exists_sameSlot_filter m l :
  Exists (sameSlot m) l ↔ filter (sameSlot m) l ≠ [].
Proof.
  rewrite Exists_exists. split.
  - intros (x & Hin & Hs) Hnil.
    assert (x ∈ filter (sameSlot m) l) as Hx by (by apply list_elem_of_filter).
    rewrite Hnil in Hx. by apply elem_of_nil in Hx.
  - destruct (filter (sameSlot m) l) as [|x l'] eqn:Hf; [done|]. intros _.
    assert (x ∈ filter (sameSlot m) l) as Hx by (rewrite Hf; left).
    apply list_elem_of_filter in Hx as [??]. eauto.
Qed.

(** A measurement survives [lastWriteWins] exactly when it is the last one
    of its timestamp and type. *)
Lemma elem_of_lastWriteWins l m :
  m ∈ lastWriteWins l ↔ last (filter (sameSlot m) l) = Some m.
Proof.
  induction l as [|a l IH]; simpl.
  { rewrite elem_of_nil. naive_solver. }
  rewrite filter_cons.
  destruct (decide (Exists (sameSlot a) l)) as [He|He].
  - rewrite IH. destruct (decide (sameSlot m a)) as [Hs|Hs]; [|done].
    rewrite last_cons.
    rewrite (filter_sameSlot_proper _ _ l Hs).
    apply Exists_sameSlot_filter in He.
    destruct (last (filter (sameSlot a) l)) eqn:Hl; [done|].
    by apply last_None in Hl.
  - rewrite elem_of_cons, IH.
    destruct (decide (sameSlot m a)) as [Hs|Hs].
    + rewrite last_cons. rewrite (filter_sameSlot_proper _ _ l Hs).
      assert (filter (sameSlot a) l = []) as ->.
      { destruct (filter (sameSlot a) l) eqn:Hf; [done|].
        exfalso. apply He, Exists_sameSlot_filter. by rewrite Hf. }
      simpl. split; [by intros [->|?]|]. intros [= ->]. by left.
    + split; [|by right]. intros [->|?]; [|done]. by destruct Hs.
Qed.

Lemma lastWriteWins_slots l x y :
  x ∈ lastWriteWins l → y ∈ lastWriteWins l → sameSlot x y → x = y.
Proof.
  rewrite !elem_of_lastWriteWins. intros Hx Hy Hs.
  rewrite (filter_sameSlot_proper _ _ l Hs) in Hx. congruence.
Qed.

Lemma lastWriteWins_subseteq l x : x ∈ lastWriteWins l → x ∈ l.
Proof.
  rewrite elem_of_lastWriteWins. intros H%last_Some_elem_of.
  by apply list_elem_of_filter in H as [_ ?].
Qed.

Lemma NoDup_lastWriteWins l : NoDup (lastWriteWins l).
Proof.
  induction l as [|a l IH]; simpl; [constructor|].
  destruct (decide (Exists (sameSlot a) l)) as [He|He]; [done|].
  constructor; [|done]. intros Ha%lastWriteWins_subseteq.
  apply He, Exists_exists. by exists a.
Qed.

Lemma NoDup_labelled_lastWriteWins ms l :
  NoDup (labelled ms <$> lastWriteWins l).
Proof.
  apply NoDup_fmap_2_strong; [|apply NoDup_lastWriteWins].
  intros x y Hx Hy Heq. apply (lastWriteWins_slots l); [done..|].
  unfold labelled in Heq. split; congruence.
Qed.

(** The measurements competing for a field, seen from the group and seen
    from the input. *)
Lemma slot_filters ms m k :
  retained m = true → measureKeyOf (measureType m) = Some k →
  filter (sameSlot m) (retainedMeasurements ms)
  = filter (λ m', measureKeyOf (measureType m') = Some k)
           (retainedAt (date m) ms).
Proof.
  intros Hr Hk. unfold retainedMeasurements, retainedAt.
  rewrite !list_filter_filter. apply list_filter_iff.
  intros m'. unfold sameSlot. split.
  - intros [[Hd Ht] Hr']. rewrite <-Ht. done.
  - intros (Hk' & Hr' & Hd). split_and!; [done| |done].
    eauto using measureKeyOf_inj.
Qed.

Lemma flattenGroups_group_elem ms x :
  x ∈ flattenGroups (groupMeasurementsByTimestamp ms)
  ↔ x ∈ labelled ms <$> lastWriteWins (retainedMeasurements ms).
Proof.
  rewrite elem_of_flattenGroups, list_elem_of_fmap. split.
  - intros (t & g & Hg & Hx).
    apply elem_of_groupFields in Hx as (k & v & mt & Hf & Hk & ->).
    rewrite groupMeasurementsByTimestamp_lookup in Hg. unfold groupAt in Hg.
    destruct (head (retainedAt t ms)) as [m0|] eqn:Hm0; [|done].
    injection Hg as <-. simpl in *.
    rewrite fieldsAt_lookup in Hf.
    destruct (last _) as [ml|] eqn:Hl; [|done]. injection Hf as <-.
    pose proof (last_Some_elem_of _ _ Hl) as Hin.
    apply list_elem_of_filter in Hin as [Hkl Hin].
    apply list_elem_of_filter in Hin as [[Hr Hd] Hin].
    exists ml. split.
    + unfold labelled. rewrite Hd, Hm0. simpl.
      f_equal. eauto using measureKeyOf_inj.
    + apply elem_of_lastWriteWins.
      rewrite (slot_filters ms ml k) by done. by rewrite Hd.
  - intros (m & -> & Hm).
    apply elem_of_lastWriteWins in Hm.
    pose proof (last_Some_elem_of _ _ Hm) as Hin.
    apply list_elem_of_filter in Hin as [_ Hin].
    apply list_elem_of_filter in Hin as [Hr Hin].
    destruct (retained_measureKeyOf (measureType m)) as [k Hk].
    { unfold retained in Hr. by destruct (ignoreMeasurementType _). }
    rewrite (slot_filters ms m k) in Hm by done.
    destruct (head (retainedAt (date m) ms)) as [m0|] eqn:Hm0.
    2:{ apply head_None in Hm0. rewrite Hm0 in Hm. done. }
    exists (date m), {| timestamp := date m; group_userId := userId m0;
                        fields := fieldsAt (date m) ms |}.
    split.
    + rewrite groupMeasurementsByTimestamp_lookup. unfold groupAt.
      by rewrite Hm0.
    + apply elem_of_groupFields. exists k, (value m), (measureType m).
      simpl. split_and!; [|done|].
      * by rewrite fieldsAt_lookup, Hm.
      * unfold labelled. by rewrite Hm0.
Qed.

Lemma labelled_same_user ms m :
  (∀ m1 m2, m1 ∈ ms → m2 ∈ ms → retained m1 = true → retained m2 = true →
            date m1 = date m2 → userId m1 = userId m2) →
  m ∈ ms → retained m = true → labelled ms m = m.
Proof.
  intros Hone Hin Hr. unfold labelled.
  destruct (head (retainedAt (date m) ms)) as [m0|] eqn:Hm0; simpl.
  - apply head_Some_elem_of, list_elem_of_filter in Hm0 as [[Hr0 Hd0] Hin0].
    rewrite (Hone m0 m) by done. by destruct m.
  - by destruct m.
Qed.

(** C1, as amended: grouping by timestamp and then flattening the fields of
    the groups yields, up to order, exactly the retained measurements with
    the last one winning per (timestamp, type); each carries its own
    timestamp, type and value, and the user of the first retained
    measurement at its timestamp.  When the retained measurements of every
    timestamp belong to one user, it yields exactly the retained
    measurements, last one winning. *)
Theorem group_then_flatten ms :
  flattenGroups (groupMeasurementsByTimestamp ms)
    ≡ₚ labelled ms <$> lastWriteWins (retainedMeasurements ms)
  ∧ ((∀ m1 m2, m1 ∈ ms → m2 ∈ ms → retained m1 = true → retained m2 = true →
               date m1 = date m2 → userId m1 = userId m2) →
     flattenGroups (groupMeasurementsByTimestamp ms)
       ≡ₚ lastWriteWins (retainedMeasurements ms)).
Proof.
  assert (flattenGroups (groupMeasurementsByTimestamp ms)
            ≡ₚ labelled ms <$> lastWriteWins (retainedMeasurements ms)) as Hp.
  { apply NoDup_Permutation.
    - apply NoDup_flattenGroups. intros t g.
      apply groupMeasurementsByTimestamp_timestamp.
    - apply NoDup_labelled_lastWriteWins.
    - apply flattenGroups_group_elem. }
  split; [exact Hp|]. intros Hone. rewrite Hp.
  assert (labelled ms <$> lastWriteWins (retainedMeasurements ms)
          = lastWriteWins (retainedMeasurements ms)) as ->; [|done].
  rewrite <-(list_fmap_id (lastWriteWins (retainedMeasurements ms))) at 2.
  apply list_fmap_ext. intros i m Hi.
  apply list_elem_of_lookup_2, lastWriteWins_subseteq in Hi.
  apply list_elem_of_filter in Hi as [Hr Hin].
  by apply labelled_same_user.
Qed.

(** C1 as stated fails when measurements of two users share a timestamp:
    the second measurement comes back under the first user's id. *)
Lemma group_then_flatten_loses_user :
  ¬ (flattenGroups (groupMeasurementsByTimestamp two_users)
     ≡ₚ lastWriteWins (retainedMeasurements two_users)).
Proof.
  intros Hp.
  assert ({| date := 1; value := VArr [12]; userId := 2;
             measureType := Respiration |}
          ∈ flattenGroups (groupMeasurementsByTimestamp two_users)) as Hin.
  { rewrite Hp. apply list_elem_of_In. vm_compute. tauto. }
  apply list_elem_of_In in Hin. vm_compute in Hin.
  intuition discriminate.
Qed.

End flatten_claims.
(** ** Running computations *)

Section run_facts.
Context (env : Env).
Implicit Types (w : World) (h : list Event).

Lemma run_bind {A B} (c : M A) (f : A → M B) w :
  run (c ≫= f) env w
  = match run c env w with
    | (w', inl e) => (w', inl e)
    | (w', inr a) => run (f a) env w'
    end.
Proof. reflexivity. Qed.

Lemma run_ret {A} (a : A) w : run (mret a) env w = (w, inr a).
Proof. reflexivity. Qed.

Lemma run_emit ev w :
  run (emit ev) env w
  = ({| history := history w ++ [ev]; client := client w |}, inr tt).
Proof. reflexivity. Qed.

Lemma world_eta w : {| history := history w; client := client w |} = w.
Proof. by destruct w. Qed.

End run_facts.

(** ** Line termination *)

Section line_facts.
Implicit Types (s suffix : string) (c d : ascii).

Lemma endsWith_refl s : endsWith s s = true.
Proof. destruct s; simpl; [done|by case_decide]. Qed.

Lemma endsWith_cons c s suffix :
  endsWith s suffix = true → endsWith (String c s) suffix = true.
Proof. intros H. simpl. by case_decide. Qed.

(** [endsWith] is the relation "[suffix] is a suffix of [s]". *)
Lemma endsWith_spec s suffix :
  endsWith s suffix = true ↔ ∃ front, s = front +:+ suffix.
Proof.
  split.
  - induction s as [|c s IH]; simpl.
    + case_decide as Heq; [|done]. subst. by exists EmptyString.
    + case_decide as Heq; [subst; by exists EmptyString|].
      intros [front ->]%IH. by exists (String c front).
  - intros [front ->]. induction front as [|c front IH].
    + apply endsWith_refl.
    + by apply endsWith_cons.
Qed.

Lemma lastChar_app s1 s2 :
  lastChar (s1 +:+ s2)
  = match lastChar s2 with Some d => Some d | None => lastChar s1 end.
Proof.
  induction s1 as [|c s1 IH].
  - change (EmptyString +:+ s2) with s2. simpl. by destruct (lastChar s2).
  - change (String c s1 +:+ s2) with (String c (s1 +:+ s2)). simpl.
    rewrite IH. by destruct (lastChar s2).
Qed.

Lemma lastChar_None s : lastChar s = None → s = EmptyString.
Proof. destruct s as [|c s]; [done|]. simpl. by destruct (lastChar s). Qed.

Lemma endsWith_lastChar s d :
  endsWith s (String d EmptyString) = bool_decide (lastChar s = Some d).
Proof.
  induction s as [|c s IH]; [done|]. simpl.
  destruct (decide (String c s = String d EmptyString)) as [Heq|Hne].
  - injection Heq as -> ->. simpl. by rewrite bool_decide_eq_true_2.
  - rewrite IH. destruct (lastChar s) as [d'|] eqn:Hl; [done|].
    apply lastChar_None in Hl as ->. simpl.
    symmetry. apply bool_decide_eq_false_2. intros [= ->]. done.
Qed.

Lemma stringify_lastChar msg : lastChar (stringify msg) = Some "}"%char.
Proof. unfold stringify. by rewrite !lastChar_app. Qed.

(** A JSON text never ends with a newline. *)
Lemma stringify_no_newline msg :
  endsWith (stringify msg) (String LF EmptyString) = false.
Proof. by rewrite endsWith_lastChar, stringify_lastChar. Qed.

End line_facts.

(** ** The transport: [sendMessage] *)

Section send_claims.
Context (env : Env).
Implicit Types (w : World) (message : string).

Lemma run_sendMessage_closed w message :
  rfcommFd (client w) = None →
  run (sendMessage message) env w = (w, inl NotConnected).
Proof.
  intros Hfd. unfold sendMessage. rewrite run_bind. unfold this at 1. simpl.
  by rewrite Hfd.
Qed.

Lemma run_sendMessage_open w message fd :
  rfcommFd (client w) = Some fd →
  run (sendMessage message) env w
  = ({| history := history w ++ [EvWrite fd (lineOf message)];
        client := client w |},
     if writeFails env (history w) fd (lineOf message)
     then inl (WriteError fd) else inr tt).
Proof.
  intros Hfd. unfold sendMessage. rewrite run_bind. unfold this at 1. simpl.
  rewrite Hfd. fold (lineOf message). unfold write, run, mbind, M_bind, ask, emit.
  simpl. by destruct (writeFails _ _ _ _).
Qed.

Lemma lineOf_terminated message :
  endsWith (lineOf message) (String LF EmptyString) = true.
Proof.
  unfold lineOf. destruct (endsWith message _) eqn:He; [done|].
  apply endsWith_spec. by exists message.
Qed.

(** C9: [sendMessage] fails with the not-connected error, and touches
    nothing, when no descriptor is open.  Otherwise it issues exactly one
    write on the open descriptor, of the message followed by a newline unless
    the message already ends with one, and it resolves exactly when the
    callback of that write reports no error. *)
Theorem sendMessage_spec w message :
  (rfcommFd (client w) = None →
   run (sendMessage message) env w = (w, inl NotConnected))
  ∧ (∀ fd, rfcommFd (client w) = Some fd →
       run (sendMessage message) env w
       = ({| history := history w ++ [EvWrite fd (lineOf message)];
             client := client w |},
          if writeFails env (history w) fd (lineOf message)
          then inl (WriteError fd) else inr tt))
  ∧ endsWith (lineOf message) (String LF EmptyString) = true
  ∧ (endsWith message (String LF EmptyString) = true → lineOf message = message)
  ∧ (endsWith message (String LF EmptyString) = false →
     lineOf message = message +:+ String LF EmptyString).
Proof.
  split_and!.
  - apply run_sendMessage_closed.
  - intros fd. apply run_sendMessage_open.
  - apply lineOf_terminated.
  - unfold lineOf. by intros ->.
  - unfold lineOf. by intros ->.
Qed.

End send_claims.
(** ** The playback driver, group by group *)

Section driver_facts.
Context (env : Env).
Implicit Types (w : World) (h : list Event) (datum : DataGroup).

Lemma run_seq_ret (c : M unit) w :
  run (c;; mret tt) env w = run c env w.
Proof. rewrite run_bind. by destruct (run c env w) as [w' [e|[]]]. Qed.

(** The seven blocks are the blocks of [fieldOrder]. *)
Lemma sendGroup_sendFields datum w :
  run (sendGroup datum) env w = run (sendFields datum fieldOrder) env w.
Proof.
  unfold sendGroup, fieldOrder. simpl sendFields.
  repeat (rewrite !(run_bind env (sendField _ _ _));
          destruct (run (sendField _ _ _) env _) as [? [?|[]]]; [done|]).
  reflexivity.
Qed.

Section connected.
Context (fd : Z).
Hypothesis writes_succeed : ∀ h fd' bytes, writeFails env h fd' bytes = false.

Lemma run_sendField datum key mt w :
  rfcommFd (client w) = Some fd →
  run (sendField datum key mt) env w
  = ({| history := history w
                   ++ expectedWrites env fd datum [(key, mt)] (history w);
        client := client w |}, inr tt).
Proof.
  intros Hfd. unfold sendField. simpl.
  destruct (fields datum !! key) as [v|]; [destruct (truthy v)|];
    rewrite ?run_ret, ?app_nil_r, ?world_eta; try done.
  rewrite run_bind. unfold dateNow at 1, ask at 1. simpl.
  rewrite (run_sendMessage_open env _ _ fd Hfd), writes_succeed.
  unfold lineOf. rewrite stringify_no_newline. done.
Qed.

Lemma expectedWrites_cons datum key mt order h :
  expectedWrites env fd datum ((key, mt) :: order) h
  = expectedWrites env fd datum [(key, mt)] h
    ++ expectedWrites env fd datum order
         (h ++ expectedWrites env fd datum [(key, mt)] h).
Proof.
  simpl. destruct (fields datum !! key) as [v|]; [destruct (truthy v)|];
    by rewrite ?app_nil_r.
Qed.

Lemma run_sendFields datum order w :
  rfcommFd (client w) = Some fd →
  run (sendFields datum order) env w
  = ({| history := history w ++ expectedWrites env fd datum order (history w);
        client := client w |}, inr tt).
Proof.
  revert w. induction order as [|[key mt] order IH]; intros w Hfd.
  - simpl. by rewrite run_ret, app_nil_r, world_eta.
  - simpl sendFields. rewrite run_bind, run_sendField by done.
    rewrite IH by done. simpl history. simpl client.
    by rewrite expectedWrites_cons, (assoc_L (++)).
Qed.

(** The messages of a group: one write per truthy field, in the order of
    [fieldOrder], each dated by the clock when it is built. *)
Lemma run_sendGroup datum w :
  rfcommFd (client w) = Some fd →
  run (sendGroup datum) env w
  = ({| history := history w
                   ++ expectedWrites env fd datum fieldOrder (history w);
        client := client w |}, inr tt).
Proof. intros. rewrite sendGroup_sendFields. by apply run_sendFields. Qed.

Lemma erase_expectedWrites datum order h :
  erase <$> expectedWrites env fd datum order h
  = replicate (length (filter (λ km : string * MeasurementType,
                                 truthy <$> fields datum !! km.1 = Some true)
                              order))
              (EvWrite fd EmptyString).
Proof.
  revert h. induction order as [|[key mt] order IH]; intros h; [done|].
  simpl expectedWrites. rewrite filter_cons. simpl.
  destruct (fields datum !! key) as [v|]; simpl; [destruct (truthy v)|];
    simpl; rewrite ?IH; try done.
Qed.

End connected.
End driver_facts.
(** ** Sorted timestamps and deltas *)

Section order_facts.
Implicit Types (data : gmap Z DataGroup) (sorted rest : list Z) (ts : Z).

Lemma sortedTimestamps_Permutation data :
  sortedTimestamps data ≡ₚ (map_to_list data).*1.
Proof. apply merge_sort_Permutation. Qed.

Lemma elem_of_sortedTimestamps data ts :
  ts ∈ sortedTimestamps data ↔ is_Some (data !! ts).
Proof.
  rewrite sortedTimestamps_Permutation, list_elem_of_fmap. split.
  - intros ([ts' g] & -> & Hin). apply elem_of_map_to_list in Hin. by eexists.
  - intros [g Hg]. exists (ts, g). split; [done|]. by apply elem_of_map_to_list.
Qed.

Lemma NoDup_sortedTimestamps data : NoDup (sortedTimestamps data).
Proof.
  rewrite sortedTimestamps_Permutation. apply NoDup_fst_map_to_list.
Qed.

Lemma StronglySorted_le_lt (l : list Z) :
  StronglySorted Z.le l → NoDup l → StronglySorted Z.lt l.
Proof.
  induction 1 as [|x l Hs IH Hall]; intros Hnd; constructor.
  - apply IH. by apply NoDup_cons in Hnd as [_ ?].
  - apply NoDup_cons in Hnd as [Hx _].
    rewrite Forall_forall in Hall |- *. intros y Hy.
    assert (x ≠ y) by (intros ->; done).
    specialize (Hall y Hy). lia.
Qed.

Lemma sortedTimestamps_ascending data :
  StronglySorted Z.lt (sortedTimestamps data).
Proof.
  apply StronglySorted_le_lt; [|apply NoDup_sortedTimestamps].
  apply StronglySorted_merge_sort; apply _.
Qed.


Lemma timeDeltas_lookup sorted (i : nat) :
  timeDeltas sorted !! i
  = match sorted !! i, sorted !! S i with
    | Some a, Some b => Some (b - a)
    | _, _ => None
    end.
Proof.
  unfold timeDeltas. rewrite list_lookup_imap, lookup_drop. simpl.
  destruct (sorted !! S i) as [b|] eqn:Hb; simpl.
  - destruct (lookup_lt_is_Some_2 sorted i) as [a Ha].
    { apply lookup_lt_Some in Hb. lia. }
    by rewrite Ha.
  - by destruct (sorted !! i).
Qed.

Lemma drop_cons_inv {A} (l : list A) (i : nat) (x : A) (k : list A) :
  drop i l = x :: k → l !! i = Some x ∧ drop (S i) l = k.
Proof.
  intros Hd. split.
  - rewrite <-(Nat.add_0_r i), <-lookup_drop, Hd. done.
  - replace (S i) with (i + 1)%nat by lia.
    by rewrite <-drop_drop, Hd.
Qed.

Lemma waitDelta_expectedWait sorted (i : nat) ts rest :
  drop i sorted = ts :: rest →
  match timeDeltas sorted !! i with
  | Some delay => [EvSleep (delay * 1000)]
  | None => []
  end = expectedWait ts rest.
Proof.
  intros [Hi Hrest]%drop_cons_inv. rewrite timeDeltas_lookup, Hi.
  replace (sorted !! S i) with (head rest).
  - by destruct rest.
  - rewrite <-Hrest, head_lookup, lookup_drop. f_equal. lia.
Qed.

Lemma playedShape_all fd data sorted :
  playedShape fd data (length sorted) sorted = expectedShape fd data sorted.
Proof. induction sorted as [|ts rest IH]; simpl; by rewrite ?IH. Qed.

End order_facts.

(** ** The playback loop *)

Section loop_facts.
Context (env : Env) (fd : Z) (data : gmap Z DataGroup) (sorted : list Z).
Hypothesis writes_succeed : ∀ h fd' bytes, writeFails env h fd' bytes = false.
Hypothesis keys_present : ∀ ts, ts ∈ sorted → is_Some (data !! ts).
Implicit Types (w : World) (rest : list Z).

Lemma run_waitDelta (i : nat) ts rest w :
  drop i sorted = ts :: rest →
  run (waitDelta i (timeDeltas sorted)) env w
  = ({| history := history w ++ expectedWait ts rest; client := client w |},
     inr tt).
Proof.
  intros Hd. rewrite <-(waitDelta_expectedWait sorted i ts rest Hd).
  unfold waitDelta. destruct (timeDeltas sorted !! i); simpl.
  - done.
  - by rewrite run_ret, app_nil_r, world_eta.
Qed.

(** One iteration of the loop that finds the signal unset. *)
Lemma run_playFrom_step (i : nat) ts rest datum w :
  drop i sorted = ts :: rest →
  data !! ts = Some datum →
  rfcommFd (client w) = Some fd →
  aborted env (history w) = false →
  run (playFrom data (timeDeltas sorted) i (ts :: rest)) env w
  = run (playFrom data (timeDeltas sorted) (S i) rest) env
        {| history := history w ++ [EvGroup ts]
                      ++ expectedWrites env fd datum fieldOrder
                           (history w ++ [EvGroup ts])
                      ++ expectedWait ts rest;
           client := client w |}.
Proof.
  intros Hd Hdatum Hfd Hab. simpl playFrom.
  rewrite run_bind. unfold isAborted at 1, ask at 1. simpl. rewrite Hab.
  rewrite run_bind, run_emit, Hdatum.
  rewrite run_bind, (run_sendGroup env fd writes_succeed) by done.
  rewrite run_bind, (run_waitDelta i ts rest) by done.
  simpl. by rewrite <-!(assoc_L (++)).
Qed.

(** The loop under any cancellation behaviour: it picks some number [j] of
    groups; each of them gets its messages and its wait; and it ends either
    with all groups picked or with the signal set. *)
Lemma run_playFrom_shape rest (i : nat) w :
  drop i sorted = rest →
  rfcommFd (client w) = Some fd →
  ∃ j w',
    (j ≤ length rest)%nat
    ∧ run (playFrom data (timeDeltas sorted) i rest) env w = (w', inr tt)
    ∧ client w' = client w
    ∧ erase <$> history w'
      = (erase <$> history w) ++ playedShape fd data j rest
    ∧ (j = length rest ∨ aborted env (history w') = true)
    ∧ (aborted env (history w) = false → rest ≠ [] → (0 < j)%nat).
Proof.
  revert i w. induction rest as [|ts rest IH]; intros i w Hd Hfd.
  { exists 0%nat, w. simpl. rewrite app_nil_r. split_and!; auto; done. }
  destruct (aborted env (history w)) eqn:Hab.
  { exists 0%nat, w. simpl. rewrite app_nil_r.
    split_and!; auto with lia; try done.
    rewrite run_bind. unfold isAborted at 1, ask at 1. simpl. by rewrite Hab. }
  destruct (keys_present ts) as [datum Hdatum].
  { rewrite <-(take_drop i sorted), Hd. set_solver. }
  rewrite (run_playFrom_step i ts rest datum) by done.
  destruct (drop_cons_inv _ _ _ _ Hd) as [_ Hd'].
  edestruct (IH (S i)) as (j & w' & Hj & Hrun & Hcl & Hsh & Hend & _);
    [exact Hd'|..]; [|rewrite Hrun]; [done|].
  exists (S j), w'. split_and!; [simpl; lia|done|done| | |lia].
  - rewrite Hsh. cbn [history playedShape]. rewrite Hdatum. cbn [from_option].
    rewrite !fmap_app, (erase_expectedWrites env fd). fold (messageCount datum).
    assert (erase <$> expectedWait ts rest = expectedWait ts rest) as ->
      by (by destruct rest).
    by rewrite <-!(assoc_L (++)).
  - destruct Hend as [->|?]; auto.
Qed.

End loop_facts.
(** ** Which groups the loop picks, whatever the environment does *)

Section groups_facts.
Implicit Types (w : World) (rest : list Z).













End groups_facts.

(** ** Waits and cancellation *)

Section wait_claims.
Context (env : Env) (fd : Z).
Implicit Types (w : World) (data : gmap Z DataGroup).

(** C5: the deltas are the pairwise differences of the sorted timestamps;
    in a run whose writes succeed, every group the loop picks is followed,
    after its messages, by a wait of the delta to the next timestamp in
    milliseconds, and the final group by no wait; a run that is never
    cancelled picks every group. *)
Theorem waits_follow_the_deltas data w :
  timeDeltas [100; 103; 107] = [3; 4]
  ∧ (∀ sorted (i : nat),
       timeDeltas sorted !! i
       = match sorted !! i, sorted !! S i with
         | Some a, Some b => Some (b - a)
         | _, _ => None
         end)
  ∧ ((∀ h fd' bytes, writeFails env h fd' bytes = false) →
     rfcommFd (client w) = Some fd →
     ∃ (j : nat) w',
       (j ≤ length (sortedTimestamps data))%nat
       ∧ run (prepareAndSendMessages data) env w = (w', inr tt)
       ∧ erase <$> history w'
         = (erase <$> history w)
           ++ playedShape fd data j (sortedTimestamps data)
       ∧ (j = length (sortedTimestamps data)
          ∨ aborted env (history w') = true)
       ∧ ((∀ h, aborted env h = false) →
          erase <$> history w'
          = (erase <$> history w)
            ++ expectedShape fd data (sortedTimestamps data))).
Proof.
  split_and!; [reflexivity|apply timeDeltas_lookup|].
  intros Hok Hfd.
  destruct (run_playFrom_shape env fd data (sortedTimestamps data) Hok
              (λ ts, proj1 (elem_of_sortedTimestamps data ts))
              (sortedTimestamps data) 0%nat w eq_refl Hfd)
    as (j & w' & Hj & Hrun & _ & Hsh & Hend & _).
  exists j, w'. split_and!; try done.
  intros Hnever. destruct Hend as [->|Hab].
  - by rewrite Hsh, playedShape_all.
  - by rewrite Hnever in Hab.
Qed.

(** C6, as amended: when the signal is found unset at the top of an
    iteration and is set once all fields of that group have been sent, the
    driver still waits the delta that follows the group, and then stops: the
    history ends with the messages of the group and that wait, nothing of a
    later group is sent, and everything sent before is still there. *)
Theorem cancellation_takes_effect_after_the_wait
    data sorted (i : nat) ts rest datum w :
  (∀ h fd' bytes, writeFails env h fd' bytes = false) →
  (∀ h ev, aborted env h = true → aborted env (h ++ [ev]) = true) →
  rfcommFd (client w) = Some fd →
  drop i sorted = ts :: rest →
  data !! ts = Some datum →
  aborted env (history w) = false →
  aborted env (history w ++ [EvGroup ts]
               ++ expectedWrites env fd datum fieldOrder
                    (history w ++ [EvGroup ts])) = true →
  run (playFrom data (timeDeltas sorted) i (ts :: rest)) env w
  = ({| history := history w ++ [EvGroup ts]
                   ++ expectedWrites env fd datum fieldOrder
                        (history w ++ [EvGroup ts])
                   ++ expectedWait ts rest;
        client := client w |}, inr tt).
Proof.
  intros Hok Hmono Hfd Hd Hdatum Hunset Hset.
  rewrite (run_playFrom_step env fd data sorted Hok i ts rest datum) by done.
  set (sent := history w ++ [EvGroup ts] ++ expectedWrites _ _ _ _ _) in *.
  assert (aborted env (history w ++ [EvGroup ts]
            ++ expectedWrites env fd datum fieldOrder (history w ++ [EvGroup ts])
            ++ expectedWait ts rest) = true) as Hstill.
  { destruct rest as [|next rest']; simpl expectedWait.
    - by rewrite app_nil_r.
    - rewrite !(assoc_L (++)). apply Hmono. by rewrite <-!(assoc_L (++)). }
  destruct rest as [|next rest']; [done|].
  simpl playFrom. rewrite run_bind. unfold isAborted at 1, ask at 1.
  simpl. simpl in Hstill. by rewrite Hstill.
Qed.

End wait_claims.
(** ** The device resolver *)

Section resolver_claims.
Context (env : Env).
Implicit Types (w : World) (nameOrAddr stdout : string).

(** The loop over the lines returns the address of the first listed device
    whose name contains the fragment. *)
Lemma findPaired_first nameOrAddr (lines : list string) :
  findPaired nameOrAddr lines
  = address <$> List.find (nameContains nameOrAddr)
      (omap (λ line, (λ m : string * string,
                        {| address := m.1; name := m.2; paired := true |})
                       <$> matchDevice line) lines).
Proof.
  induction lines as [|line lines IH]; [done|]. simpl.
  destruct (matchDevice line) as [[addr nm]|]; simpl; [|done].
  unfold nameContains at 1. simpl.
  by destruct (includes _ _).
Qed.

Lemma run_resolveAddress_lookup nameOrAddr stdout w :
  isAddressPattern nameOrAddr = false →
  execStdout env (history w) "bluetoothctl devices Paired" = Some stdout →
  run (resolveAddress nameOrAddr) env w
  = ({| history := history w ++ [EvExec "bluetoothctl devices Paired"];
        client := client w |},
     match List.find (nameContains nameOrAddr) (pairedDevices stdout) with
     | Some d => inr (address d)
     | None => inl (DeviceNotFound nameOrAddr)
     end).
Proof.
  intros Hpat Hexec. unfold resolveAddress. rewrite Hpat.
  rewrite run_bind. unfold exec.
  rewrite run_bind. unfold ask at 1. simpl. rewrite Hexec.
  rewrite run_bind, run_emit, run_ret.
  rewrite findPaired_first. fold (pairedDevices stdout).
  by destruct (List.find _ _).
Qed.

(** ** The line format of the listing *)







End resolver_claims.

(** ** The channel negotiator *)

Section negotiator_claims.
Context (env : Env) (addr : string) (output : Z → list ProcEvent).
Hypothesis output_by_channel :
  ∀ h ch,
    procEvents env (h ++ [EvSpawn (connectProc addr ch)]) connectTimeout
    = output ch.
Implicit Types (w : World) (channels : list Z).





End negotiator_claims.
(** ** Runs on sample inputs *)

Example stringify_sample :
  stringify {| date := 1691059124; value := VArr [59]; userId := 1001;
               measureType := HeartRate |}
  = "{" +:+ quoted "date" +:+ ":1691059124," +:+ quoted "value" +:+ ":[59],"
    +:+ quoted "userId" +:+ ":1001," +:+ quoted "measureType" +:+ ":"
    +:+ quoted "HeartRate" +:+ "}".
Proof. reflexivity. Qed.

(** One user with one sample: exactly one message, no trailing wait. *)
Example single_sample_run :
  run (replay single_input) env_live world_open
  = ({| history :=
          [ EvGroup 1;
            EvWrite 3 (stringify (heart (sample_clock [EvGroup 1]) 59 1)
                       +:+ String LF EmptyString) ];
        client := client world_open |}, inr tt).
Proof. vm_compute. reflexivity. Qed.

(** A group with all seven fields: seven messages, in the order of the
    source. *)
Example all_fields_in_order :
  let datum := {| timestamp := 5; group_userId := 7;
                  fields := list_to_map
                    [("position", VNum 3); ("accelerationZ", VArr [6]);
                     ("accelerationY", VArr [5]); ("accelerationX", VArr [4]);
                     ("respiration", VArr [3]); ("breathFrequency", VArr [2]);
                     ("heartRate", VArr [1])] |} in
  omap (λ ev, match ev with
              | EvWrite _ bytes =>
                  List.find (λ mt, includes bytes (quoted (typeName mt)))
                            allMeasurementTypes
              | _ => None
              end)
       (history (run (sendGroup datum) env_live world_open).1)
  = [HeartRate; BreathFrequency; Respiration; AccelerationX; AccelerationY;
     AccelerationZ; Position].
Proof. vm_compute. reflexivity. Qed.

Example three_groups_run :
  erase <$> history (run (prepareAndSendMessages
                            (groupMeasurementsByTimestamp three_groups))
                         env_live world_open).1
  = [ EvGroup 100; EvWrite 3 EmptyString; EvSleep 3000;
      EvGroup 103; EvWrite 3 EmptyString; EvSleep 4000;
      EvGroup 107; EvWrite 3 EmptyString ].
Proof. vm_compute. reflexivity. Qed.

(** A peer that listens on channel 26: the channels 12, 19 and 26 are tried,
    and the device is opened once. *)
Example negotiation_finds_channel_26 :
  withoutKills (history (run (connectRFCOMM sample_address) env_live
                           world_closed).1)
  = attemptStart sample_address 12 ++ attemptStart sample_address 19
    ++ attemptStart sample_address 26 ++ [EvOpen "/dev/rfcomm0" "w"]
  ∧ client (run (connectRFCOMM sample_address) env_live world_closed).1
    = {| deviceAddress := EmptyString;
         rfcommProc := Some (connectProc sample_address 26);
         rfcommFd := Some 3 |}
  ∧ (run (connectRFCOMM sample_address) env_live world_closed).2 = inr tt.
Proof. vm_compute. repeat split. Qed.

(** C4 fails on a field whose value is the number zero: the group holds the
    field, the driver tests it for truthiness and sends nothing for it.  The
    run neither writes nor fails, whatever the environment. *)
Theorem zero_valued_field_is_not_sent env w :
  fields <$> groupMeasurementsByTimestamp (flatMeasurementData zero_input) !! 1
    = Some {["accelerationX" := VNum 0]}
  ∧ run (replay zero_input) env w
    = ({| history := history w
                     ++ (if aborted env (history w) then [] else [EvGroup 1]);
          client := client w |}, inr tt).
Proof.
  split; [vm_compute; reflexivity|].
  unfold replay, prepareAndSendMessages.
  assert (groupMeasurementsByTimestamp (flatMeasurementData zero_input)
          = {[1 := {| timestamp := 1; group_userId := 1;
                      fields := {["accelerationX" := VNum 0]} |}]}) as ->
    by (vm_compute; reflexivity).
  assert (sortedTimestamps
            ({[1 := {| timestamp := 1; group_userId := 1;
                       fields := {["accelerationX" := VNum 0]} |}]}
             : gmap Z DataGroup) = [1]) as ->
    by (vm_compute; reflexivity).
  cbn [playFrom]. rewrite run_bind. unfold isAborted at 1, ask at 1.
  cbn [run]. destruct (aborted env (history w)).
  - by rewrite run_ret, app_nil_r, world_eta.
  - rewrite run_bind, run_emit. vm_compute. reflexivity.
Qed.

(** C6 as stated fails: the signal is set once the only message of the first
    group has been written, and the driver still waits the three seconds to
    the next group before it stops. *)
Lemma cancellation_does_not_skip_the_wait :
  aborted env_cancel sent100 = true
  ∧ run (prepareAndSendMessages (groupMeasurementsByTimestamp two_groups))
        env_cancel world_open
    = ({| history := sent100 ++ [EvSleep 3000]; client := client world_open |},
       inr tt)
  ∧ run (prepareAndSendMessages (groupMeasurementsByTimestamp two_groups))
        env_cancel world_open
    ≠ ({| history := sent100; client := client world_open |}, inr tt).
Proof.
  split_and!.
  - reflexivity.
  - vm_compute. reflexivity.
  - vm_compute. intros [=].
Qed.
(** ** The statements above, on the sample inputs *)

(** C2 on [three_groups], whose second measurement is an ECG sample. *)
Lemma ignored_measurements_are_dropped_witness :
  ignoreMeasurementType (measureType (ecg 101 1)) = true
  ∧ groupMeasurementsByTimestamp
      ([heart 103 60 1] ++ ecg 101 1 :: [heart 100 59 1; heart 107 61 1])
    = groupMeasurementsByTimestamp
        ([heart 103 60 1] ++ [heart 100 59 1; heart 107 61 1])
  ∧ groupMeasurementsByTimestamp three_groups !! 100 = Some group100
  ∧ MeasurementTypeEnum ECG = Some "ecg"
  ∧ fields group100 !! "ecg" = None.
Proof.
  destruct (ignored_measurements_are_dropped three_groups) as (_ & _ & H2 & H3).
  split_and!.
  - reflexivity.
  - apply H2. reflexivity.
  - vm_compute. reflexivity.
  - reflexivity.
  - apply (H3 100 group100 ECG "ecg").
    + vm_compute. reflexivity.
    + reflexivity.
    + reflexivity.
Defined.

(** C1 on [two_groups], where every measurement belongs to user 1. *)
Lemma group_then_flatten_witness :
  (∀ m1 m2, m1 ∈ two_groups → m2 ∈ two_groups →
            retained m1 = true → retained m2 = true →
            date m1 = date m2 → userId m1 = userId m2)
  ∧ flattenGroups (groupMeasurementsByTimestamp two_groups)
      ≡ₚ lastWriteWins (retainedMeasurements two_groups).
Proof.
  assert (∀ m1 m2, m1 ∈ two_groups → m2 ∈ two_groups →
            retained m1 = true → retained m2 = true →
            date m1 = date m2 → userId m1 = userId m2) as Hone.
  { intros m1 m2 H1%list_elem_of_In H2%list_elem_of_In _ _ _.
    simpl in H1, H2. intuition subst; reflexivity. }
  split; [exact Hone|].
  apply (group_then_flatten two_groups), Hone.
Defined.


(** C5 on [three_groups], played without cancellation. *)
Lemma waits_follow_the_deltas_witness :
  (∀ h fd' bytes, writeFails env_live h fd' bytes = false)
  ∧ rfcommFd (client world_open) = Some 3
  ∧ (∀ h, aborted env_live h = false)
  ∧ ∃ w',
      run (prepareAndSendMessages (groupMeasurementsByTimestamp three_groups))
          env_live world_open = (w', inr tt)
      ∧ erase <$> history w'
        = expectedShape 3 (groupMeasurementsByTimestamp three_groups)
            (sortedTimestamps (groupMeasurementsByTimestamp three_groups)).
Proof.
  split_and!; [reflexivity..|].
  destruct (waits_follow_the_deltas env_live 3
              (groupMeasurementsByTimestamp three_groups) world_open)
    as (_ & _ & H).
  destruct H as (j & w' & _ & Hrun & _ & _ & Hfull); [reflexivity..|].
  exists w'. split; [exact Hrun|]. apply Hfull. reflexivity.
Defined.

(** Once a message has been written, the signal of [env_cancel] stays set. *)
Lemma env_cancel_stays_set h ev :
  aborted env_cancel h = true → aborted env_cancel (h ++ [ev]) = true.
Proof. simpl. intros H. by rewrite existsb_app, H. Qed.

(** C6 on [two_groups], cancelled once the first message has been written. *)
Lemma cancellation_takes_effect_after_the_wait_witness :
  aborted env_cancel (history world_open) = false
  ∧ aborted env_cancel sent100 = true
  ∧ run (playFrom (groupMeasurementsByTimestamp two_groups)
                  (timeDeltas [100; 103]) 0 [100; 103])
        env_cancel world_open
    = ({| history := sent100 ++ [EvSleep 3000]; client := client world_open |},
       inr tt).
Proof.
  split_and!; [reflexivity..|].
  apply (cancellation_takes_effect_after_the_wait env_cancel 3
           (groupMeasurementsByTimestamp two_groups) [100; 103] 0 100 [103]
           group100 world_open).
  - reflexivity.
  - apply env_cancel_stays_set.
  - reflexivity.
  - reflexivity.
  - vm_compute. reflexivity.
  - reflexivity.
  - vm_compute. reflexivity.
Defined.

(** C9 on a client without and with an open descriptor. *)
Lemma sendMessage_spec_witness :
  rfcommFd (client world_closed) = None
  ∧ run (sendMessage "ping") env_live world_closed
    = (world_closed, inl NotConnected)
  ∧ rfcommFd (client world_open) = Some 3
  ∧ run (sendMessage "ping") env_live world_open
    = ({| history := [EvWrite 3 ("ping" +:+ String LF EmptyString)];
          client := client world_open |}, inr tt)
  ∧ endsWith "ping" (String LF EmptyString) = false
  ∧ lineOf "ping" = "ping" +:+ String LF EmptyString
  ∧ endsWith (lineOf "ping") (String LF EmptyString) = true
  ∧ lineOf (lineOf "ping") = lineOf "ping".
Proof.
  destruct (sendMessage_spec env_live world_closed "ping")
    as (Hclosed & _ & _ & _ & Happend).
  destruct (sendMessage_spec env_live world_open "ping")
    as (_ & Hopen & _ & _ & _).
  destruct (sendMessage_spec env_live world_open (lineOf "ping"))
    as (_ & _ & _ & Hkeep & _).
  split_and!.
  - reflexivity.
  - apply Hclosed. reflexivity.
  - reflexivity.
  - rewrite (Hopen 3 eq_refl). reflexivity.
  - reflexivity.
  - apply Happend. reflexivity.
  - reflexivity.
  - apply Hkeep. reflexivity.
Defined.
(** * Further properties of the pipeline *)

Section pipeline_properties.
Implicit Types (ms : list Measurement) (m : Measurement) (t : Z).

Lemma retainedAt_app t ms1 ms2 :
  retainedAt t (ms1 ++ ms2) = retainedAt t ms1 ++ retainedAt t ms2.
Proof. unfold retainedAt. by rewrite filter_app. Qed.

Lemma retainedAt_nil_iff t ms :
  retainedAt t ms = [] ↔ ∀ m, m ∈ ms → retained m = true → date m ≠ t.
Proof.
  unfold retainedAt. split.
  - intros Hnil m Hin Hr Hd.
    assert (m ∈ filter (λ m, retained m = true ∧ date m = t) ms) as Hm
      by (by apply list_elem_of_filter).
    rewrite Hnil in Hm. by apply elem_of_nil in Hm.
  - intros Hall. destruct (filter _ ms) as [|m l] eqn:Hf; [done|].
    assert (m ∈ filter (λ m, retained m = true ∧ date m = t) ms) as Hm
      by (rewrite Hf; left).
    apply list_elem_of_filter in Hm as [[Hr Hd] Hin].
    by destruct (Hall m Hin Hr).
Qed.

(** X1: processing one more retained measurement stores its value under its
    measure key in the group of its timestamp, keeps the other fields and
    the user of that group, and leaves the groups of all other timestamps
    as they were. *)
Theorem group_after_retained_measurement ms m :
  ignoreMeasurementType (measureType m) = false →
  (∃ g key,
     MeasurementTypeEnum (measureType m) = Some key
     ∧ groupMeasurementsByTimestamp (ms ++ [m]) !! date m = Some g
     ∧ timestamp g = date m
     ∧ group_userId g
       = from_option group_userId (userId m)
           (groupMeasurementsByTimestamp ms !! date m)
     ∧ fields g !! key = Some (value m)
     ∧ ∀ key', key' ≠ key →
         fields g !! key'
         = groupMeasurementsByTimestamp ms !! date m ≫= λ g0, fields g0 !! key')
  ∧ (∀ t, t ≠ date m →
       groupMeasurementsByTimestamp (ms ++ [m]) !! t
       = groupMeasurementsByTimestamp ms !! t).
Proof.
  intros Hign.
  assert (retained m = true) as Hr by (unfold retained; by rewrite Hign).
  destruct (retained_measureKeyOf _ Hign) as [key Hkey].
  pose proof (measureKeyOf_enum _ _ Hkey) as Henum.
  split.
  - exists {| timestamp := date m;
              group_userId := from_option group_userId (userId m)
                                (groupMeasurementsByTimestamp ms !! date m);
              fields := <[key := value m]> (fieldsAt (date m) ms) |}, key.
    split_and!; try done.
    + rewrite !groupMeasurementsByTimestamp_lookup. unfold groupAt.
      rewrite retainedAt_snoc_in, fieldsAt_snoc_in by done.
      rewrite assign_measureKeyOf, Hkey.
      by destruct (retainedAt (date m) ms).
    + simpl. apply lookup_insert_eq.
    + intros key' Hne. simpl. rewrite lookup_insert_ne by done.
      rewrite groupMeasurementsByTimestamp_lookup. unfold groupAt.
      destruct (retainedAt (date m) ms) as [|m0 l] eqn:Hl; simpl; [|done].
      by rewrite (fieldsAt_no_retained _ _ Hl), lookup_empty.
  - intros t Hne. rewrite !groupMeasurementsByTimestamp_lookup. unfold groupAt.
    by rewrite retainedAt_snoc_out, fieldsAt_snoc_out by (intros [_ ?]; done).
Qed.

(** X2: what every group of the grouping satisfies: it is stored under its
    own timestamp, it has at least one field, and each of its fields is one
    of the seven forwarded ones and holds the value of a retained
    measurement of that timestamp. *)
Theorem group_invariants ms t g :
  groupMeasurementsByTimestamp ms !! t = Some g →
  timestamp g = t
  ∧ fields g ≠ ∅
  ∧ ∀ key v,
      fields g !! key = Some v →
      key ∈ fieldOrder.*1
      ∧ ∃ m, m ∈ ms ∧ date m = t ∧ value m = v
             ∧ MeasurementTypeEnum (measureType m) = Some key.
Proof.
  intros Hg. split_and!.
  - by eapply groupMeasurementsByTimestamp_timestamp.
  - rewrite groupMeasurementsByTimestamp_lookup in Hg. unfold groupAt in Hg.
    destruct (head (retainedAt t ms)) as [m0|] eqn:Hm0; [|done].
    injection Hg as <-. simpl.
    apply head_Some_elem_of in Hm0 as Hin.
    apply list_elem_of_filter in Hin as [[Hr0 _] _].
    destruct (retained_measureKeyOf (measureType m0)) as [k0 Hk0].
    { unfold retained in Hr0. by destruct (ignoreMeasurementType _). }
    intros Hempty.
    assert (fieldsAt t ms !! k0 = None) as Hnone
      by (by rewrite Hempty, lookup_empty).
    rewrite fieldsAt_lookup in Hnone.
    apply fmap_None, last_None in Hnone.
    apply head_Some_elem_of in Hm0.
    assert (m0 ∈ filter (λ m, measureKeyOf (measureType m) = Some k0)
                        (retainedAt t ms)) as Hin
      by (by apply list_elem_of_filter).
    rewrite Hnone in Hin. by apply elem_of_nil in Hin.
  - intros key v Hf.
    destruct (group_field_origin _ _ _ _ _ Hg Hf)
      as (m & Hin & Hr & Hd & Hk & Hv).
    split; [|by eauto 10 using measureKeyOf_enum].
    unfold retained in Hr.
    destruct (measureType m); simpl in Hr; try done;
      injection Hk as <-; apply (bool_decide_unpack _); vm_compute; exact I.
Qed.

(** X3: inputs whose retained measurements have no timestamp in common are
    grouped independently: the grouping of their concatenation is the union
    of their groupings, whichever comes first. *)
Theorem group_of_disjoint_inputs (ds1 ds2 : list UserData) :
  (∀ m1 m2, m1 ∈ flatMeasurementData ds1 → m2 ∈ flatMeasurementData ds2 →
            retained m1 = true → retained m2 = true → date m1 ≠ date m2) →
  groupMeasurementsByTimestamp (flatMeasurementData (ds1 ++ ds2))
    = groupMeasurementsByTimestamp (flatMeasurementData ds1)
      ∪ groupMeasurementsByTimestamp (flatMeasurementData ds2)
  ∧ groupMeasurementsByTimestamp (flatMeasurementData (ds2 ++ ds1))
    = groupMeasurementsByTimestamp (flatMeasurementData (ds1 ++ ds2)).
Proof.
  intros Hdisj.
  assert (∀ a b, flatMeasurementData (a ++ b)
                 = flatMeasurementData a ++ flatMeasurementData b) as Hflat.
  { intros a b. unfold flatMeasurementData. by rewrite map_app, concat_app. }
  set (ms1 := flatMeasurementData ds1) in *.
  set (ms2 := flatMeasurementData ds2) in *.
  assert (∀ t, retainedAt t ms1 = [] ∨ retainedAt t ms2 = []) as Hone.
  { intros t. destruct (retainedAt t ms1) as [|m1 l1] eqn:H1; [by left|right].
    assert (m1 ∈ retainedAt t ms1) as Hin by (rewrite H1; left).
    apply list_elem_of_filter in Hin as [[Hr1 Hd1] Hin1].
    apply retainedAt_nil_iff. intros m2 Hin2 Hr2 Hd2.
    apply (Hdisj m1 m2); congruence. }
  assert (∀ ma mb t, retainedAt t ma = [] →
            groupAt t (ma ++ mb) = groupAt t mb
            ∧ groupAt t (mb ++ ma) = groupAt t mb
            ∧ groupAt t ma = None) as Hside.
  { intros ma mb t Hnil. unfold groupAt, fieldsAt.
    by rewrite !retainedAt_app, Hnil, app_nil_r. }
  assert (∀ t, groupAt t (ms1 ++ ms2)
               = (groupMeasurementsByTimestamp ms1
                  ∪ groupMeasurementsByTimestamp ms2) !! t
               ∧ groupAt t (ms2 ++ ms1) = groupAt t (ms1 ++ ms2)) as Hboth.
  { intros t. destruct (Hone t) as [Hnil|Hnil].
    - destruct (Hside ms1 ms2 t Hnil) as (Ha & Hb & Hc).
      rewrite Ha, Hb. split; [|done].
      rewrite lookup_union_r;
        by rewrite groupMeasurementsByTimestamp_lookup.
    - destruct (Hside ms2 ms1 t Hnil) as (Ha & Hb & Hc).
      rewrite Ha, Hb. split; [|done].
      rewrite lookup_union_l;
        by rewrite groupMeasurementsByTimestamp_lookup. }
  rewrite !Hflat. split; apply map_eq; intros t;
    rewrite !groupMeasurementsByTimestamp_lookup; apply Hboth.
Qed.

(** X4: the grouping is empty exactly when every measurement of the input
    has an ignored type; then the playback does nothing at all: no event,
    no error, whatever the environment and the state of the connection. *)
Theorem nothing_retained_nothing_played (input : list UserData) env w :
  (groupMeasurementsByTimestamp (flatMeasurementData input) = ∅
   ↔ ∀ m, m ∈ flatMeasurementData input →
          ignoreMeasurementType (measureType m) = true)
  ∧ ((∀ m, m ∈ flatMeasurementData input →
           ignoreMeasurementType (measureType m) = true) →
     run (replay input) env w = (w, inr tt)).
Proof.
  set (ms := flatMeasurementData input).
  assert (groupMeasurementsByTimestamp ms = ∅
          ↔ ∀ m, m ∈ ms → ignoreMeasurementType (measureType m) = true) as Hiff.
  { rewrite map_empty. split.
    - intros Hnone m Hin.
      destruct (ignoreMeasurementType (measureType m)) eqn:Hi; [done|].
      specialize (Hnone (date m)).
      rewrite groupMeasurementsByTimestamp_lookup in Hnone.
      unfold groupAt in Hnone. apply fmap_None, head_None in Hnone.
      apply retainedAt_nil_iff with (m := m) in Hnone; [done..|].
      unfold retained. by rewrite Hi.
    - intros Hall t. rewrite groupMeasurementsByTimestamp_lookup.
      unfold groupAt. apply fmap_None, head_None, retainedAt_nil_iff.
      intros m Hin Hr. unfold retained in Hr.
      by rewrite (Hall m Hin) in Hr. }
  split; [exact Hiff|]. intros Hall.
  unfold replay, prepareAndSendMessages. fold ms.
  rewrite (proj2 Hiff Hall). unfold sortedTimestamps.
  by rewrite map_to_list_empty.
Qed.

End pipeline_properties.
(** * Further properties of the playback driver *)

Section playback_properties.
Implicit Types (w : World) (data : gmap Z DataGroup).

Lemma playbackPost_refl {A} env w (a : A) : playbackPost env w w (inr a).
Proof.
  split_and!; [done| |done]. exists []. by rewrite app_nil_r.
Qed.

Lemma respectsPlayback_ret {A} (a : A) : respectsPlayback (mret a : M A).
Proof. intros env w. apply playbackPost_refl. Qed.

Lemma respectsPlayback_ask {A} (f : Env → list Event → A) :
  respectsPlayback (ask f).
Proof. intros env w. apply playbackPost_refl. Qed.

Lemma respectsPlayback_emit ev :
  (∀ fd, playbackEvent fd ev) → respectsPlayback (emit ev).
Proof.
  intros Hev env w. rewrite run_emit. split_and!; [done| |done].
  exists [ev]. split; [done|]. by constructor.
Qed.

Lemma respectsPlayback_bind {A B} (c : M A) (f : A → M B) :
  respectsPlayback c → (∀ a, respectsPlayback (f a)) →
  respectsPlayback (c ≫= f).
Proof.
  intros Hc Hf env w. rewrite run_bind. specialize (Hc env w).
  destruct (run c env w) as [w1 [e|a]]; [done|].
  destruct Hc as (Hcl1 & (evs1 & Hh1 & Hall1) & _). simpl in *.
  specialize (Hf a env w1).
  destruct (run (f a) env w1) as [w2 r2]. simpl in *.
  destruct Hf as (Hcl2 & (evs2 & Hh2 & Hall2) & Hr2).
  rewrite Hcl1 in *. split_and!.
  - congruence.
  - exists (evs1 ++ evs2). split.
    + by rewrite Hh2, Hh1, (assoc_L (++)).
    + by apply Forall_app.
  - done.
Qed.

Lemma respectsPlayback_sendMessage message :
  respectsPlayback (sendMessage message).
Proof.
  intros env w.
  destruct (rfcommFd (client w)) as [fd|] eqn:Hfd.
  - rewrite (run_sendMessage_open env w message fd Hfd). simpl.
    split_and!; [done|..].
    + eexists. split; [done|]. constructor; [|done]. by rewrite Hfd.
    + destruct (writeFails env (history w) fd (lineOf message)) eqn:Hf;
        [|done].
      rewrite Hfd. split; [done|]. eauto.
  - rewrite (run_sendMessage_closed env w message Hfd). simpl.
    split_and!; [done| |by rewrite Hfd].
    exists []. by rewrite app_nil_r.
Qed.

Lemma respectsPlayback_sendField datum key mt :
  respectsPlayback (sendField datum key mt).
Proof.
  unfold sendField.
  destruct (fields datum !! key) as [v|]; [destruct (truthy v)|];
    try apply respectsPlayback_ret.
  apply respectsPlayback_bind; [apply respectsPlayback_ask|]. intros d.
  apply respectsPlayback_sendMessage.
Qed.

Lemma respectsPlayback_sendGroup datum : respectsPlayback (sendGroup datum).
Proof.
  unfold sendGroup.
  repeat (apply respectsPlayback_bind;
          [apply respectsPlayback_sendField|intros _]).
  apply respectsPlayback_sendField.
Qed.

Lemma respectsPlayback_waitDelta (i : nat) deltas :
  respectsPlayback (waitDelta i deltas).
Proof.
  unfold waitDelta. destruct (deltas !! i); [|apply respectsPlayback_ret].
  by apply respectsPlayback_emit.
Qed.

Lemma respectsPlayback_playFrom data deltas (i : nat) rest :
  respectsPlayback (playFrom data deltas i rest).
Proof.
  revert i. induction rest as [|ts rest IH]; intros i.
  { apply respectsPlayback_ret. }
  cbn [playFrom].
  apply respectsPlayback_bind; [apply respectsPlayback_ask|]. intros stop.
  destruct stop; [apply respectsPlayback_ret|].
  apply respectsPlayback_bind; [by apply respectsPlayback_emit|]. intros _.
  destruct (data !! ts) as [datum|]; [|apply IH].
  apply respectsPlayback_bind; [apply respectsPlayback_sendGroup|]. intros _.
  apply respectsPlayback_bind; [apply respectsPlayback_waitDelta|]. intros _.
  apply IH.
Qed.

(** X5: whatever the environment does, the playback leaves the Bluetooth
    object as it is and only appends to the history, and what it appends are
    group markers, waits, and writes on the descriptor of the object: it runs
    no command, spawns and signals no process, opens nothing. *)
Theorem playback_footprint env data w :
  client (run (prepareAndSendMessages data) env w).1 = client w
  ∧ ∃ evs,
      history (run (prepareAndSendMessages data) env w).1 = history w ++ evs
      ∧ Forall (playbackEvent (rfcommFd (client w))) evs.
Proof.
  destruct (respectsPlayback_playFrom data
              (timeDeltas (sortedTimestamps data)) 0 (sortedTimestamps data)
              env w) as (Hcl & Hevs & _).
  by split.
Qed.

(** X6: on a client without an open descriptor the playback writes
    nothing, and the only way it can fail is the not-connected error. *)
Theorem playback_without_descriptor env data w :
  rfcommFd (client w) = None →
  (∀ fd bytes,
     EvWrite fd bytes ∈ history (run (prepareAndSendMessages data) env w).1 →
     EvWrite fd bytes ∈ history w)
  ∧ ∀ e, (run (prepareAndSendMessages data) env w).2 = inl e →
         e = NotConnected.
Proof.
  intros Hfd.
  destruct (respectsPlayback_playFrom data
              (timeDeltas (sortedTimestamps data)) 0 (sortedTimestamps data)
              env w) as (_ & (evs & Hh & Hall) & Hr).
  fold (prepareAndSendMessages data) in *. rewrite Hfd in *. split.
  - intros fd bytes. rewrite Hh, elem_of_app. intros [?|Hin]; [done|].
    rewrite Forall_forall in Hall. by apply Hall in Hin.
  - intros e He. by rewrite He in Hr.
Qed.

(** X7: on a client with an open descriptor the playback can only fail with
    the error of a write, and it stops right there: the failed write is the
    last event of the history. *)
Theorem playback_stops_at_a_failed_write env data w fd e :
  rfcommFd (client w) = Some fd →
  (run (prepareAndSendMessages data) env w).2 = inl e →
  e = WriteError fd
  ∧ ∃ h bytes,
      history (run (prepareAndSendMessages data) env w).1
      = h ++ [EvWrite fd bytes]
      ∧ writeFails env h fd bytes = true.
Proof.
  intros Hfd He.
  destruct (respectsPlayback_playFrom data
              (timeDeltas (sortedTimestamps data)) 0 (sortedTimestamps data)
              env w) as (_ & _ & Hr).
  fold (prepareAndSendMessages data) in *. by rewrite He, Hfd in Hr.
Qed.

End playback_properties.
(** * Messages, waits and framing *)

Section message_properties.
Implicit Types (w : World) (h : list Event) (datum : DataGroup).



End message_properties.

Section delta_properties.
Implicit Types (sorted : list Z).

Lemma timeDeltas_cons a b sorted :
  timeDeltas (a :: b :: sorted) = (b - a) :: timeDeltas (b :: sorted).
Proof.
  apply list_eq. intros i. rewrite timeDeltas_lookup.
  destruct i as [|i]; [done|]. simpl. by rewrite timeDeltas_lookup.
Qed.

Lemma timeDeltas_short a : timeDeltas [a] = [].
Proof. done. Qed.

Lemma length_timeDeltas sorted :
  length (timeDeltas sorted) = pred (length sorted).
Proof.
  destruct sorted as [|a sorted]; [done|]. revert a.
  induction sorted as [|b sorted IH]; intros a; [done|].
  rewrite timeDeltas_cons. simpl. by rewrite IH.
Qed.

Lemma timeDeltas_positive sorted :
  StronglySorted Z.lt sorted → Forall (λ d, 0 < d) (timeDeltas sorted).
Proof.
  destruct sorted as [|a sorted]; [constructor|]. revert a.
  induction sorted as [|b sorted IH]; intros a Hs; [constructor|].
  rewrite timeDeltas_cons. apply StronglySorted_inv in Hs as [Hs Ha].
  constructor; [|by apply IH].
  apply Forall_cons in Ha as [Hab _]. lia.
Qed.

Lemma sumZ_timeDeltas sorted first final :
  head sorted = Some first → last sorted = Some final →
  sumZ (timeDeltas sorted) = final - first.
Proof.
  destruct sorted as [|a sorted]; [done|]. revert a first.
  induction sorted as [|b sorted IH]; intros a first.
  - intros [= <-] [= <-]. simpl. lia.
  - intros [= <-] Hlast. rewrite timeDeltas_cons.
    rewrite last_cons_cons in Hlast.
    unfold sumZ in *. simpl. rewrite (IH b b) by done. lia.
Qed.

(** X9: there is one delta less than there are timestamps; on strictly
    ascending timestamps every delta is positive, so the driver never waits
    a zero or negative time; and the deltas add up to the distance between
    the first and the last timestamp. *)
Theorem timeDeltas_facts sorted :
  length (timeDeltas sorted) = pred (length sorted)
  ∧ (StronglySorted Z.lt sorted → Forall (λ d, 0 < d) (timeDeltas sorted))
  ∧ (∀ first final,
       head sorted = Some first → last sorted = Some final →
       sumZ (timeDeltas sorted) = final - first).
Proof.
  split_and!.
  - apply length_timeDeltas.
  - apply timeDeltas_positive.
  - apply sumZ_timeDeltas.
Qed.

End delta_properties.

Section framing_properties.
Implicit Types (s : string).

Lemma stringForall_app p s1 s2 :
  stringForall p (s1 +:+ s2) = stringForall p s1 && stringForall p s2.
Proof.
  induction s1 as [|c s1 IH]; [done|].
  change (String c s1 +:+ s2) with (String c (s1 +:+ s2)). simpl.
  by rewrite IH, andb_assoc.
Qed.

Lemma pretty_N_char_notLF x : notLF (pretty_N_char x) = true.
Proof. unfold pretty_N_char. by repeat case_match. Qed.

Lemma pretty_N_go_notLF x s :
  stringForall notLF s = true → stringForall notLF (pretty_N_go x s) = true.
Proof.
  revert s. induction (N.lt_wf_0 x) as [x _ IH]; intros s Hs.
  assert (x = 0 ∨ 0 < x)%N as [->|?] by lia.
  - by rewrite pretty_N_go_0.
  - rewrite pretty_N_go_step by done. apply IH.
    + by apply N.div_lt.
    + simpl. by rewrite pretty_N_char_notLF.
Qed.

Lemma pretty_N_notLF (x : N) : stringForall notLF (pretty x) = true.
Proof.
  unfold pretty, pretty_N. case_decide; [done|]. by apply pretty_N_go_notLF.
Qed.

Lemma pretty_Z_notLF (x : Z) : stringForall notLF (pretty x) = true.
Proof.
  destruct x as [|p|p]; [done|apply pretty_N_notLF|].
  unfold pretty, pretty_Z. rewrite stringForall_app.
  change (pretty p) with (pretty (Npos p)). by rewrite pretty_N_notLF.
Qed.

Lemma concat_notLF (ns : list Z) :
  stringForall notLF (String.concat "," (pretty <$> ns)) = true.
Proof.
  induction ns as [|n ns IH]; [done|].
  destruct ns as [|n' ns]; [apply pretty_Z_notLF|].
  change (stringForall notLF
            (pretty n +:+ "," +:+ String.concat "," (pretty <$> n' :: ns)) = true).
  by rewrite !stringForall_app, pretty_Z_notLF, IH.
Qed.

Lemma stringify_notLF msg : stringForall notLF (stringify msg) = true.
Proof.
  unfold stringify, quoted, stringifyValue.
  rewrite !stringForall_app, !pretty_Z_notLF.
  destruct (value msg), (measureType msg); simpl;
    rewrite ?stringForall_app, ?pretty_Z_notLF, ?concat_notLF; done.
Qed.

Lemma rev_app_rev_app (a b c : string) :
  String.rev_app (String.rev_app a b) c = String.rev_app b (a +:+ c).
Proof.
  revert b c. induction a as [|x a IH]; intros b c; [done|].
  simpl. by rewrite IH.
Qed.

Lemma string_app_nil_r s : s +:+ EmptyString = s.
Proof.
  induction s as [|c s IH]; [done|].
  change (String c s +:+ EmptyString) with (String c (s +:+ EmptyString)).
  by rewrite IH.
Qed.

Lemma string_app_assoc (a b c : string) : (a +:+ b) +:+ c = a +:+ (b +:+ c).
Proof.
  induction a as [|x a IH]; [done|].
  change (String x ((a +:+ b) +:+ c) = String x (a +:+ (b +:+ c))).
  by rewrite IH.
Qed.

Lemma splitGo_free body cur rest :
  stringForall notLF body = true →
  splitGo LF cur (body +:+ rest) = splitGo LF (String.rev_app body cur) rest.
Proof.
  revert cur. induction body as [|c body IH]; intros cur Hfree; [done|].
  change (String c body +:+ rest) with (String c (body +:+ rest)).
  simpl in Hfree. apply andb_true_iff in Hfree as [Hc Hfree].
  cbn [splitGo String.rev_app].
  rewrite decide_False.
  - by apply IH.
  - intros ->. by vm_compute in Hc.
Qed.

Lemma endsWith_free body :
  stringForall notLF body = true →
  endsWith body (String LF EmptyString) = false.
Proof.
  intros Hfree. rewrite endsWith_lastChar.
  apply bool_decide_eq_false_2. intros Hl.
  induction body as [|c body IH]; [done|].
  simpl in Hfree, Hl. apply andb_true_iff in Hfree as [Hc Hfree].
  destruct (lastChar body) as [d|] eqn:Hd.
  - by apply IH.
  - injection Hl as ->. by vm_compute in Hc.
Qed.

Lemma notLF_free_line body :
  stringForall notLF body = true → lineOf body = body +:+ String LF EmptyString.
Proof. intros Hfree. unfold lineOf. by rewrite endsWith_free. Qed.

Lemma split_unlines (lines : list string) :
  Forall (λ s, stringForall notLF s = true) lines →
  split LF (unlines lines) = lines ++ [EmptyString].
Proof.
  intros Hall. unfold split.
  induction Hall as [|line lines Hfree _ IH]; [done|].
  cbn [unlines foldr]. fold (unlines lines).
  rewrite splitGo_free by done.
  cbn [splitGo]. rewrite decide_True by done.
  rewrite IH. simpl. f_equal. unfold String.rev.
  by rewrite rev_app_rev_app, string_app_nil_r.
Qed.

Lemma wire_unlines (messages : list string) :
  Forall (λ s, stringForall notLF s = true) messages →
  wire messages = unlines messages.
Proof.
  induction 1 as [|message messages Hfree _ IH]; [done|].
  cbn [wire unlines foldr]. fold (unlines messages).
  rewrite notLF_free_line, IH, string_app_assoc by done. done.
Qed.

(** X10: the lines of the messages can be told apart again: a receiver that
    splits what it gets at the newlines finds exactly the texts that were
    sent, in order, followed by an empty rest.  This holds for all texts
    without a newline, and the JSON text of a message is one. *)
Theorem framing_round_trip (messages : list string) (msgs : list Measurement) :
  (Forall (λ s, stringForall notLF s = true) messages →
   split LF (wire messages) = messages ++ [EmptyString])
  ∧ split LF (wire (stringify <$> msgs)) = (stringify <$> msgs) ++ [EmptyString].
Proof.
  assert (∀ l, Forall (λ s, stringForall notLF s = true) l →
               split LF (wire l) = l ++ [EmptyString]) as Hgen.
  { intros l Hall. rewrite wire_unlines by done. by apply split_unlines. }
  split; [apply Hgen|]. apply Hgen.
  apply Forall_fmap, Forall_forall. intros msg _. apply stringify_notLF.
Qed.

End framing_properties.
(** * Further properties of the device resolver *)

Section resolver_properties.
Implicit Types (w : World) (s line stdout : string) (d : BluetoothDevice).




Lemma isHexOrColon_lowerChar c : isHexOrColon (lowerChar c) = isHexOrColon c.
Proof. destruct c as [[] [] [] [] [] [] [] []]; by vm_compute. Qed.

Lemma dotStar_isDot s : stringForall isDot (dotStar s) = true.
Proof.
  induction s as [|c s IH]; [done|]. simpl.
  destruct (isDot c) eqn:Hc; [|done]. simpl. by rewrite Hc.
Qed.

Lemma matchDeviceHere_well_formed s addr nm :
  matchDeviceHere s = Some (addr, nm) →
  isAddressPattern addr = true ∧ nm ≠ EmptyString
  ∧ stringForall isDot nm = true.
Proof.
  unfold matchDeviceHere.
  destruct (String.prefix _ s); [|done].
  destruct (isAddressPattern _) eqn:Haddr; [|done].
  destruct (stringDrop 17 _) as [|c tail]; [done|].
  destruct (decide (c = " "%char)) as [->|Hc].
  - pose proof (dotStar_isDot tail) as Hdot.
    destruct (dotStar tail) as [|c' nm'] eqn:Hnm; [done|].
    intros [= <- <-]. by split_and!.
  - destruct c as [[] [] [] [] [] [] [] []]; done.
Qed.

Lemma matchDevice_well_formed line addr nm :
  matchDevice line = Some (addr, nm) →
  isAddressPattern addr = true ∧ nm ≠ EmptyString
  ∧ stringForall isDot nm = true.
Proof.
  induction line as [|c line IH]; cbn [matchDevice].
  - destruct (matchDeviceHere EmptyString) as [[a n]|] eqn:Hm; [|done].
    intros [= <- <-]. by apply matchDeviceHere_well_formed in Hm.
  - destruct (matchDeviceHere (String c line)) as [[a n]|] eqn:Hm; [|done].
    intros [= <- <-]. by apply matchDeviceHere_well_formed in Hm.
Qed.

Lemma elem_of_pairedDevices d stdout :
  d ∈ pairedDevices stdout →
  ∃ line, line ∈ split LF stdout
          ∧ matchDevice line = Some (address d, name d) ∧ paired d = true.
Proof.
  unfold pairedDevices. rewrite list_elem_of_omap.
  intros (line & Hin & Hm). exists line. split; [done|].
  destruct (matchDevice line) as [[a n]|]; [|done].
  simpl in Hm. by injection Hm as <-.
Qed.

(** X11: every device the listing is parsed into has an address of the
    documented form (17 characters, hexadecimal digits and colons) and a
    name that is not empty and contains no line terminator. *)
Theorem parsed_devices_are_well_formed stdout :
  Forall wellFormedDevice (pairedDevices stdout).
Proof.
  apply Forall_forall. intros d (line & _ & Hm & Hp)%elem_of_pairedDevices.
  apply matchDevice_well_formed in Hm as (? & ? & ?).
  by split_and!.
Qed.

Lemma findPaired_address nameOrAddr (lines : list string) addr :
  findPaired nameOrAddr lines = Some addr → isAddressPattern addr = true.
Proof.
  induction lines as [|line lines IH]; [done|]. simpl.
  destruct (matchDevice line) as [[a n]|] eqn:Hm; [|done].
  destruct (includes _ _); [|done].
  intros [= <-]. by apply matchDevice_well_formed in Hm as (? & _).
Qed.

Lemma run_resolveAddress_address env nameOrAddr w addr :
  (run (resolveAddress nameOrAddr) env w).2 = inr addr →
  isAddressPattern addr = true.
Proof.
  unfold resolveAddress.
  destruct (isAddressPattern nameOrAddr) eqn:Hpat.
  - by intros [= <-].
  - rewrite run_bind. unfold exec. rewrite run_bind. unfold ask at 1.
    simpl. destruct (execStdout _ _ _) as [stdout|].
    + rewrite run_bind, run_emit, run_ret.
      destruct (findPaired _ _) as [a|] eqn:Hf; [|done].
      intros [= <-]. by apply findPaired_address in Hf.
    + by rewrite run_bind, run_emit.
Qed.

(** X12: whatever the resolver returns is an address of the documented
    form, for every input and whatever the listing holds; the object is not
    touched, and at most the listing command is run. *)
Theorem resolveAddress_returns_an_address env nameOrAddr w addr :
  (run (resolveAddress nameOrAddr) env w).2 = inr addr →
  isAddressPattern addr = true
  ∧ client (run (resolveAddress nameOrAddr) env w).1 = client w
  ∧ (history (run (resolveAddress nameOrAddr) env w).1 = history w
     ∨ history (run (resolveAddress nameOrAddr) env w).1
       = history w ++ [EvExec "bluetoothctl devices Paired"]).
Proof.
  intros Hr. split; [by eapply run_resolveAddress_address|].
  clear Hr. unfold resolveAddress.
  destruct (isAddressPattern nameOrAddr) eqn:Hpat.
  - split; [done|by left].
  - rewrite run_bind. unfold exec. rewrite run_bind. unfold ask at 1.
    simpl. destruct (execStdout _ _ _) as [stdout|].
    + rewrite run_bind, run_emit, run_ret.
      destruct (findPaired _ _) as [a|]; simpl; split; (done || by right).
    + rewrite run_bind, run_emit. simpl. split; [done|by right].
Qed.



Lemma includes_empty s : includes s EmptyString = true.
Proof. by destruct s. Qed.

(** X14: the empty name fragment is contained in every name: with an empty
    identifier the resolver returns the first device of the listing, and
    fails only when the listing holds no device. *)
Theorem empty_fragment_resolves_to_the_first_device env w stdout :
  execStdout env (history w) "bluetoothctl devices Paired" = Some stdout →
  (run (resolveAddress EmptyString) env w).2
  = match pairedDevices stdout with
    | d :: _ => inr (address d)
    | [] => inl (DeviceNotFound EmptyString)
    end.
Proof.
  intros Hexec.
  rewrite (run_resolveAddress_lookup env EmptyString stdout) by done.
  simpl. destruct (pairedDevices stdout) as [|d ds]; [done|].
  simpl. unfold nameContains. simpl. by rewrite includes_empty.
Qed.

Lemma length_toLowerCase s : String.length (toLowerCase s) = String.length s.
Proof. induction s as [|c s IH]; [done|]. simpl. by rewrite IH. Qed.

Lemma isAddressPattern_toLowerCase s :
  isAddressPattern (toLowerCase s) = isAddressPattern s.
Proof.
  unfold isAddressPattern. rewrite length_toLowerCase. f_equal.
  induction s as [|c s IH]; [done|]. simpl.
  by rewrite isHexOrColon_lowerChar, IH.
Qed.

Lemma findPaired_case a b (lines : list string) :
  toLowerCase a = toLowerCase b → findPaired a lines = findPaired b lines.
Proof.
  intros Hab. induction lines as [|line lines IH]; [done|]. simpl.
  by rewrite Hab, IH.
Qed.

(** X15: the case of the letters of a name fragment does not matter: two
    fragments that differ in case only resolve to the same address, or both
    to none, after the same command. *)
Theorem fragment_case_is_irrelevant env w a b :
  toLowerCase a = toLowerCase b →
  isAddressPattern a = false →
  (run (resolveAddress a) env w).1 = (run (resolveAddress b) env w).1
  ∧ ∀ addr, (run (resolveAddress a) env w).2 = inr addr
            ↔ (run (resolveAddress b) env w).2 = inr addr.
Proof.
  intros Hab Ha.
  assert (isAddressPattern b = false) as Hb.
  { by rewrite <-isAddressPattern_toLowerCase, <-Hab,
      isAddressPattern_toLowerCase. }
  unfold resolveAddress. rewrite Ha, Hb.
  rewrite !run_bind. unfold exec. rewrite !run_bind. unfold ask at 1 3.
  simpl. destruct (execStdout _ _ _) as [stdout|].
  - rewrite !run_bind, !run_emit, !run_ret.
    rewrite (findPaired_case a b) by done.
    by destruct (findPaired b _).
  - by rewrite !run_bind, !run_emit.
Qed.

End resolver_properties.
(** * Further properties of the RFCOMM transport *)

Section connection_properties.
Context (env : Env).
Implicit Types (w : World) (addr : string) (channels : list Z).

(** One attempt in any environment, followed by whatever the loop does with
    its outcome. *)
Lemma run_attempt_any {B} addr (k : Proc → bool → M B) ch w :
  run (execIgnoringResult "rfcomm release 0";;
       p ← spawn "rfcomm" ["connect"; "rfcomm0"; addr; pretty ch];
       ok ← awaitConnect p;
       k p ok) env w
  = match race (procEvents env
                  (history w ++ [EvExec "rfcomm release 0";
                                 EvSpawn (connectProc addr ch)])
                  connectTimeout) with
    | Connected =>
        run (k (connectProc addr ch) true) env
          {| history := history w
                        ++ [EvExec "rfcomm release 0";
                            EvSpawn (connectProc addr ch)];
             client := client w |}
    | Exited =>
        run (k (connectProc addr ch) false) env
          {| history := history w
                        ++ [EvExec "rfcomm release 0";
                            EvSpawn (connectProc addr ch)];
             client := client w |}
    | TimedOut =>
        run (k (connectProc addr ch) false) env
          {| history := history w
                        ++ [EvExec "rfcomm release 0";
                            EvSpawn (connectProc addr ch);
                            EvKill (connectProc addr ch) "SIGINT"];
             client := client w |}
    end.
Proof.
  unfold execIgnoringResult, spawn, awaitConnect.
  fold (connectProc addr ch).
  rewrite run_bind, run_emit. rewrite run_bind, run_bind, run_emit, run_ret.
  rewrite run_bind, run_bind. unfold ask at 1. cbn [run history client].
  rewrite <-(assoc_L (++)). cbn [app].
  destruct (race _).
  - by rewrite run_ret.
  - by rewrite run_ret.
  - rewrite run_bind. unfold kill. rewrite run_emit, run_ret.
    cbn [history client]. by rewrite <-!(assoc_L (++)).
Qed.

Lemma run_openSync path flags w :
  run (openSync path flags) env w
  = ({| history := history w ++ [EvOpen path flags]; client := client w |},
     match openResult env (history w) path flags with
     | Some fd => inr fd
     | None => inl (OpenError path)
     end).
Proof.
  unfold openSync. rewrite run_bind. unfold ask. cbn [run history client].
  rewrite run_bind, run_emit.
  by destruct (openResult env (history w) path flags).
Qed.

(** What a negotiation over [channels] leaves behind. *)
Lemma tryChannels_post addr channels w :
  channels ⊆ knownChannels →
  ∃ evs,
    history (run (tryChannels addr channels) env w).1 = history w ++ evs
    ∧ Forall (connectEvent addr) evs
    ∧ match (run (tryChannels addr channels) env w).2 with
      | inr _ =>
          ∃ ch fd,
            ch ∈ channels
            ∧ client (run (tryChannels addr channels) env w).1
              = {| deviceAddress := deviceAddress (client w);
                   rfcommProc := Some (connectProc addr ch);
                   rfcommFd := Some fd |}
            ∧ last evs = Some (EvOpen "/dev/rfcomm0" "w")
      | inl e =>
          (e = ChannelNegotiationFailed
           ∧ client (run (tryChannels addr channels) env w).1 = client w)
          ∨ (e = OpenError "/dev/rfcomm0"
             ∧ ∃ ch,
                 ch ∈ channels
                 ∧ client (run (tryChannels addr channels) env w).1
                   = {| deviceAddress := deviceAddress (client w);
                        rfcommProc := Some (connectProc addr ch);
                        rfcommFd := rfcommFd (client w) |}
                 ∧ last evs = Some (EvOpen "/dev/rfcomm0" "w"))
      end.
Proof.
  revert w. induction channels as [|ch channels IH]; intros w Hsub.
  { exists []. simpl. rewrite app_nil_r. split_and!; [done|done|by left]. }
  assert (ch ∈ knownChannels) as Hch by (apply Hsub; left).
  assert (channels ⊆ knownChannels) as Hsub'.
  { intros x Hx. apply Hsub. by right. }
  assert (connectEvent addr (EvExec "rfcomm release 0")) as Hrel by done.
  assert (connectEvent addr (EvSpawn (connectProc addr ch))) as Hspawn
    by (by exists ch).
  assert (connectEvent addr (EvKill (connectProc addr ch) "SIGINT")) as Hkill
    by (split; [done|by exists ch]).
  assert (connectEvent addr (EvOpen "/dev/rfcomm0" "w")) as Hopen by done.
  cbn [tryChannels].
  rewrite (run_attempt_any addr (λ p ok, if ok : bool then _ else _)).
  destruct (race _).
  - rewrite run_bind. unfold assignThis. cbn [run history client].
    rewrite run_bind, run_openSync. cbn [history client].
    destruct (openResult env _ _ _) as [fd|];
      cbn [run fst snd history client];
      exists [EvExec "rfcomm release 0"; EvSpawn (connectProc addr ch);
              EvOpen "/dev/rfcomm0" "w"];
      rewrite <-(assoc_L (++)); cbn [app];
      (split_and!; [done|by repeat constructor|]).
    + exists ch, fd. split_and!; [by left|done|done].
    + right. split; [done|]. exists ch. split_and!; [by left|done|done].
  - destruct (IH {| history := history w
                               ++ [EvExec "rfcomm release 0";
                                   EvSpawn (connectProc addr ch)];
                    client := client w |} Hsub') as (evs & Hh & Hall & Hr).
    cbn [history client] in *.
    exists ([EvExec "rfcomm release 0"; EvSpawn (connectProc addr ch)] ++ evs).
    split_and!.
    + by rewrite Hh, (assoc_L (++)).
    + apply Forall_app. split; [by repeat constructor|done].
    + destruct (run (tryChannels addr channels) env _) as [w' [e|[]]];
        cbn [fst snd] in *.
      * destruct Hr as [Hr|(He & ch' & Hin & Hcl & Hlast)]; [by left|].
        right. split; [done|]. exists ch'. split_and!; [by right|done|].
        rewrite last_app. by rewrite Hlast.
      * destruct Hr as (ch' & fd & Hin & Hcl & Hlast).
        exists ch', fd. split_and!; [by right|done|].
        rewrite last_app. by rewrite Hlast.
  - destruct (IH {| history := history w
                               ++ [EvExec "rfcomm release 0";
                                   EvSpawn (connectProc addr ch);
                                   EvKill (connectProc addr ch) "SIGINT"];
                    client := client w |} Hsub') as (evs & Hh & Hall & Hr).
    cbn [history client] in *.
    exists ([EvExec "rfcomm release 0"; EvSpawn (connectProc addr ch);
             EvKill (connectProc addr ch) "SIGINT"] ++ evs).
    split_and!.
    + by rewrite Hh, (assoc_L (++)).
    + apply Forall_app. split; [by repeat constructor|done].
    + destruct (run (tryChannels addr channels) env _) as [w' [e|[]]];
        cbn [fst snd] in *.
      * destruct Hr as [Hr|(He & ch' & Hin & Hcl & Hlast)]; [by left|].
        right. split; [done|]. exists ch'. split_and!; [by right|done|].
        rewrite last_app. by rewrite Hlast.
      * destruct Hr as (ch' & fd & Hin & Hcl & Hlast).
        exists ch', fd. split_and!; [by right|done|].
        rewrite last_app. by rewrite Hlast.
Qed.

(** X16: what a channel negotiation leaves behind, in any environment.  It
    only releases the device, spawns and interrupts connect processes for
    the known channels and opens the device; it never changes the address
    of the object.  On success the object holds the process of a known
    channel and the descriptor, and opening the device was the last thing
    done.  It fails in two ways only: with the negotiation error, and then
    the object is as before; or with the error of opening the device, and
    then the object keeps the process that connected but has no new
    descriptor. *)
Theorem connectRFCOMM_outcomes addr w :
  ∃ evs,
    history (run (connectRFCOMM addr) env w).1 = history w ++ evs
    ∧ Forall (connectEvent addr) evs
    ∧ match (run (connectRFCOMM addr) env w).2 with
      | inr _ =>
          ∃ ch fd,
            ch ∈ knownChannels
            ∧ client (run (connectRFCOMM addr) env w).1
              = {| deviceAddress := deviceAddress (client w);
                   rfcommProc := Some (connectProc addr ch);
                   rfcommFd := Some fd |}
            ∧ last evs = Some (EvOpen "/dev/rfcomm0" "w")
      | inl e =>
          (e = ChannelNegotiationFailed
           ∧ client (run (connectRFCOMM addr) env w).1 = client w)
          ∨ (e = OpenError "/dev/rfcomm0"
             ∧ ∃ ch,
                 ch ∈ knownChannels
                 ∧ client (run (connectRFCOMM addr) env w).1
                   = {| deviceAddress := deviceAddress (client w);
                        rfcommProc := Some (connectProc addr ch);
                        rfcommFd := rfcommFd (client w) |}
                 ∧ last evs = Some (EvOpen "/dev/rfcomm0" "w"))
      end.
Proof. by apply tryChannels_post. Qed.

Lemma run_resolveAddress_post nameOrAddr w :
  client (run (resolveAddress nameOrAddr) env w).1 = client w
  ∧ match (run (resolveAddress nameOrAddr) env w).2 with
    | inr addr => isAddressPattern addr = true
    | inl e =>
        (e = ExecError "bluetoothctl devices Paired"
         ∨ e = DeviceNotFound nameOrAddr)
        ∧ history (run (resolveAddress nameOrAddr) env w).1
          = history w ++ [EvExec "bluetoothctl devices Paired"]
    end.
Proof.
  pose proof (run_resolveAddress_address env nameOrAddr w) as Haddr.
  unfold resolveAddress in *.
  destruct (isAddressPattern nameOrAddr) eqn:Hpat.
  - split; [done|]. by apply Haddr.
  - revert Haddr. rewrite run_bind. unfold exec. rewrite run_bind.
    unfold ask at 1. simpl. destruct (execStdout _ _ _) as [stdout|].
    + rewrite run_bind, run_emit, run_ret.
      destruct (findPaired _ _) as [a|]; simpl; intros Haddr.
      * split; [done|]. by apply Haddr.
      * split; [done|]. split; [by right|done].
    + rewrite run_bind, run_emit. simpl. intros _.
      split; [done|]. split; [by left|done].
Qed.

Lemma run_startConnection deviceIdentifier w :
  run (startConnection deviceIdentifier) env w
  = match run (resolveAddress
                 (if truthy_string deviceIdentifier then deviceIdentifier
                  else deviceAddress (client w))) env w with
    | (w1, inl e) => (w1, inl e)
    | (w1, inr addr) =>
        run (connectRFCOMM addr) env
          {| history := history w1 ++ [EvExec ("bluetoothctl connect " +:+ addr)];
             client := {| deviceAddress := addr;
                          rfcommProc := rfcommProc (client w1);
                          rfcommFd := rfcommFd (client w1) |} |}
    end.
Proof.
  unfold startConnection. rewrite run_bind. unfold this at 1.
  cbn [run]. rewrite run_bind.
  destruct (run (resolveAddress _) env w) as [w1 [e|addr]]; [done|].
  rewrite run_bind. unfold assignThis. cbn [run history client].
  rewrite run_bind. unfold ensurePaired, execIgnoringResult.
  by rewrite run_emit.
Qed.

(** What [startConnection] leaves behind. *)
Lemma startConnection_post deviceIdentifier w :
  match (run (startConnection deviceIdentifier) env w).2 with
  | inr _ =>
      isAddressPattern
        (deviceAddress (client (run (startConnection deviceIdentifier) env w).1))
      = true
      ∧ ∃ ch fd,
          ch ∈ knownChannels
          ∧ rfcommProc (client (run (startConnection deviceIdentifier) env w).1)
            = Some (connectProc
                      (deviceAddress
                         (client (run (startConnection deviceIdentifier) env w).1))
                      ch)
          ∧ rfcommFd (client (run (startConnection deviceIdentifier) env w).1)
            = Some fd
  | inl e =>
      ((e = ExecError "bluetoothctl devices Paired"
        ∨ e = DeviceNotFound (if truthy_string deviceIdentifier
                              then deviceIdentifier
                              else deviceAddress (client w)))
       ∧ (run (startConnection deviceIdentifier) env w).1
         = {| history := history w ++ [EvExec "bluetoothctl devices Paired"];
              client := client w |})
      ∨ (e = ChannelNegotiationFailed
         ∧ isAddressPattern
             (deviceAddress
                (client (run (startConnection deviceIdentifier) env w).1))
           = true
         ∧ rfcommProc (client (run (startConnection deviceIdentifier) env w).1)
           = rfcommProc (client w)
         ∧ rfcommFd (client (run (startConnection deviceIdentifier) env w).1)
           = rfcommFd (client w))
      ∨ (e = OpenError "/dev/rfcomm0"
         ∧ isAddressPattern
             (deviceAddress
                (client (run (startConnection deviceIdentifier) env w).1))
           = true
         ∧ (∃ ch,
              ch ∈ knownChannels
              ∧ rfcommProc
                  (client (run (startConnection deviceIdentifier) env w).1)
                = Some (connectProc
                          (deviceAddress
                             (client
                                (run (startConnection deviceIdentifier) env w).1))
                          ch))
         ∧ rfcommFd (client (run (startConnection deviceIdentifier) env w).1)
           = rfcommFd (client w))
  end.
Proof.
  rewrite run_startConnection.
  destruct (run_resolveAddress_post
              (if truthy_string deviceIdentifier then deviceIdentifier
               else deviceAddress (client w)) w) as [Hcl Hres].
  destruct (run (resolveAddress _) env w) as [w1 [e|addr]];
    cbn [fst snd] in *.
  - left. destruct Hres as [He Hh]. split; [done|].
    destruct w1 as [h1 c1]. simpl in *. by subst.
  - set (w2 := {| history := _; client := _ |}).
    destruct (tryChannels_post addr knownChannels w2)
      as (evs & _ & _ & Hr); [done|].
    fold (connectRFCOMM addr) in Hr.
    destruct (run (connectRFCOMM addr) env w2) as [w3 [e|[]]];
      cbn [fst snd] in *.
    + right. destruct Hr as [[-> Hc]|(-> & ch & Hin & Hc & _)].
      * left. rewrite Hc. subst w2. simpl. by rewrite Hcl.
      * right. rewrite Hc. subst w2. simpl. rewrite Hcl.
        split_and!; [done|done| |done]. by exists ch.
    + destruct Hr as (ch & fd & Hin & Hc & _). rewrite Hc. simpl.
      split; [done|]. by exists ch, fd.
Qed.

(** X17: the outcomes of [startConnection], in any environment.  After a
    success the object holds an address of the documented form, the connect
    process of a known channel to this address, and a descriptor.  A failed
    resolution (the listing command fails, or no paired device matches)
    leaves the object as it was, and nothing but the listing has been run.
    After a failed negotiation the object holds the resolved address but
    the process and descriptor it had before; after a failed open it holds
    the process that connected. *)
Theorem startConnection_outcomes deviceIdentifier w :
  match (run (startConnection deviceIdentifier) env w).2 with
  | inr _ =>
      isAddressPattern
        (deviceAddress (client (run (startConnection deviceIdentifier) env w).1))
      = true
      ∧ ∃ ch fd,
          ch ∈ knownChannels
          ∧ rfcommProc (client (run (startConnection deviceIdentifier) env w).1)
            = Some (connectProc
                      (deviceAddress
                         (client (run (startConnection deviceIdentifier) env w).1))
                      ch)
          ∧ rfcommFd (client (run (startConnection deviceIdentifier) env w).1)
            = Some fd
  | inl e =>
      ((e = ExecError "bluetoothctl devices Paired"
        ∨ e = DeviceNotFound (if truthy_string deviceIdentifier
                              then deviceIdentifier
                              else deviceAddress (client w)))
       ∧ (run (startConnection deviceIdentifier) env w).1
         = {| history := history w ++ [EvExec "bluetoothctl devices Paired"];
              client := client w |})
      ∨ (e = ChannelNegotiationFailed
         ∧ isAddressPattern
             (deviceAddress
                (client (run (startConnection deviceIdentifier) env w).1))
           = true
         ∧ rfcommProc (client (run (startConnection deviceIdentifier) env w).1)
           = rfcommProc (client w)
         ∧ rfcommFd (client (run (startConnection deviceIdentifier) env w).1)
           = rfcommFd (client w))
      ∨ (e = OpenError "/dev/rfcomm0"
         ∧ isAddressPattern
             (deviceAddress
                (client (run (startConnection deviceIdentifier) env w).1))
           = true
         ∧ (∃ ch,
              ch ∈ knownChannels
              ∧ rfcommProc
                  (client (run (startConnection deviceIdentifier) env w).1)
                = Some (connectProc
                          (deviceAddress
                             (client
                                (run (startConnection deviceIdentifier) env w).1))
                          ch))
         ∧ rfcommFd (client (run (startConnection deviceIdentifier) env w).1)
           = rfcommFd (client w))
  end.
Proof. apply startConnection_post. Qed.

Lemma run_closeConnection w :
  run closeConnection env w
  = ({| history := history w
                   ++ EvExec "rfcomm release 0"
                      :: match rfcommProc (client w) with
                         | Some p => [EvKill p "SIGINT"]
                         | None => []
                         end;
        client := {| deviceAddress := deviceAddress (client w);
                     rfcommProc := None;
                     rfcommFd := None |} |},
     inr tt).
Proof.
  destruct w as [h [a p fd]].
  destruct fd as [fd|], p as [p|];
    cbv [run closeConnection mbind M_bind this assignThis execIgnoringResult
         kill emit mret M_ret rfcommFd rfcommProc client history
         deviceAddress];
    by rewrite <-?(assoc_L (++)).
Qed.

(** X18: closing never fails and leaves neither descriptor nor process
    behind, whatever the object held: the device is released, and a connect
    process the object holds is interrupted, also when the object has no
    descriptor (as after a failed open).  Closing again only releases the
    device again.  A message sent after closing is not written: the send
    fails with the not-connected error. *)
Theorem closeConnection_is_final w message :
  (run closeConnection env w).2 = inr tt
  ∧ rfcommFd (client (run closeConnection env w).1) = None
  ∧ rfcommProc (client (run closeConnection env w).1) = None
  ∧ deviceAddress (client (run closeConnection env w).1)
    = deviceAddress (client w)
  ∧ history (run closeConnection env w).1
    = history w
      ++ EvExec "rfcomm release 0"
         :: match rfcommProc (client w) with
            | Some p => [EvKill p "SIGINT"]
            | None => []
            end
  ∧ run (closeConnection;; closeConnection) env w
    = ({| history := history (run closeConnection env w).1
                     ++ [EvExec "rfcomm release 0"];
          client := client (run closeConnection env w).1 |},
       inr tt)
  ∧ run (closeConnection;; sendMessage message) env w
    = ((run closeConnection env w).1, inl NotConnected).
Proof.
  rewrite !run_bind, !run_closeConnection. cbn [fst snd history client].
  split_and!; done.
Qed.

Lemma run_sendField_closed datum key mt w :
  rfcommFd (client w) = None →
  run (sendField datum key mt) env w
  = (w, if decide (truthy <$> fields datum !! key = Some true)
        then inl NotConnected else inr tt).
Proof.
  intros Hfd. unfold sendField.
  destruct (fields datum !! key) as [v|]; cbn [fmap option_fmap option_map].
  - destruct (truthy v).
    + rewrite decide_True by done.
      rewrite run_bind. unfold dateNow at 1, ask at 1. cbn [run].
      by rewrite run_sendMessage_closed.
    + by rewrite decide_False by (intros [=]).
  - by rewrite decide_False by (intros [=]).
Qed.

Lemma run_sendFields_closed datum (order : list (string * MeasurementType)) w :
  rfcommFd (client w) = None →
  run (sendFields datum order) env w
  = (w, match filter (λ km : string * MeasurementType,
                        truthy <$> fields datum !! km.1 = Some true) order with
        | [] => inr tt
        | _ :: _ => inl NotConnected
        end).
Proof.
  intros Hfd. induction order as [|[key mt] order IH]; [done|].
  cbn [sendFields]. rewrite run_bind, run_sendField_closed by done.
  rewrite filter_cons. cbn [fst].
  destruct (decide (truthy <$> fields datum !! key = Some true)); [done|].
  exact IH.
Qed.

(** X19: [main] connects, starts the playback without waiting for it, and
    returns [closeConnection] as the cleanup of its caller; the playback
    needs the descriptor for as long as it runs.  While nothing closes the
    connection, a playback that follows [startConnection] runs on an open
    descriptor: the two in sequence end connected, or with an error of the
    connection, or with the error of a write on the descriptor that was
    opened.  Once the connection has been closed between two groups, the
    rest of the playback writes nothing and can only fail with the
    not-connected error; it does fail with it at the next group when that
    group has a field to send and the signal is not set. *)
Theorem playback_needs_the_descriptor deviceIdentifier data deltas
    (i : nat) rest w :
  match (run (startConnection deviceIdentifier;; prepareAndSendMessages data)
           env w).2 with
  | inr _ =>
      ∃ fd,
        rfcommFd
          (client (run (startConnection deviceIdentifier;;
                        prepareAndSendMessages data) env w).1)
        = Some fd
  | inl e =>
      e = ExecError "bluetoothctl devices Paired"
      ∨ e = DeviceNotFound (if truthy_string deviceIdentifier
                            then deviceIdentifier
                            else deviceAddress (client w))
      ∨ e = ChannelNegotiationFailed
      ∨ e = OpenError "/dev/rfcomm0"
      ∨ ∃ fd,
          e = WriteError fd
          ∧ rfcommFd
              (client (run (startConnection deviceIdentifier;;
                            prepareAndSendMessages data) env w).1)
            = Some fd
  end
  ∧ (∀ fd bytes,
       EvWrite fd bytes
       ∈ history (run (closeConnection;; playFrom data deltas i rest) env w).1 →
       EvWrite fd bytes ∈ history w)
  ∧ (∀ e,
       (run (closeConnection;; playFrom data deltas i rest) env w).2 = inl e →
       e = NotConnected)
  ∧ (∀ ts rest' datum,
       rest = ts :: rest' →
       data !! ts = Some datum →
       (0 < messageCount datum)%nat →
       aborted env (history (run closeConnection env w).1) = false →
       (run (closeConnection;; playFrom data deltas i rest) env w).2
       = inl NotConnected).
Proof.
  split.
  { rewrite run_bind.
    pose proof (startConnection_post deviceIdentifier w) as Hstart.
    destruct (run (startConnection deviceIdentifier) env w) as [w1 [e|[]]];
      cbn [fst snd] in *.
    - destruct Hstart as [[[->| ->] _]|[[-> _]|[-> _]]]; auto.
    - destruct Hstart as (_ & ch & fd & _ & _ & Hfd).
      destruct (respectsPlayback_playFrom data
                  (timeDeltas (sortedTimestamps data)) 0 (sortedTimestamps data)
                  env w1) as (Hcl & _ & Hr).
      fold (prepareAndSendMessages data) in Hr, Hcl. rewrite Hfd in Hr.
      destruct (run (prepareAndSendMessages data) env w1) as [w2 [e|[]]];
        cbn [fst snd] in *.
      + destruct Hr as [-> _]. do 4 right. exists fd. by rewrite Hcl.
      + exists fd. by rewrite Hcl. }
  rewrite run_bind, run_closeConnection. cbn [fst].
  set (w1 := {| history := _; client := _ |}).
  assert (rfcommFd (client w1) = None) as Hfd by done.
  destruct (respectsPlayback_playFrom data deltas i rest env w1)
    as (_ & (evs & Hh & Hall) & Hr).
  rewrite Hfd in Hall, Hr. split_and!.
  - intros fd bytes. rewrite Hh, elem_of_app. intros [Hin|Hin].
    + subst w1. cbn [history] in Hin. apply elem_of_app in Hin as [?|Hin]; [done|].
      destruct (rfcommProc (client w));
        repeat (apply elem_of_cons in Hin as [?|Hin]; [done|]);
        by apply elem_of_nil in Hin.
    + rewrite Forall_forall in Hall. by apply Hall in Hin.
  - intros e He. by rewrite He in Hr.
  - intros ts rest' datum -> Hdatum Hcount Hab.
    cbn [playFrom]. rewrite run_bind. unfold isAborted at 1, ask at 1.
    cbn [run]. rewrite Hab. rewrite run_bind, run_emit, Hdatum.
    rewrite run_bind, sendGroup_sendFields, run_sendFields_closed by done.
    unfold messageCount in Hcount.
    destruct (filter _ fieldOrder); [simpl in Hcount; lia|done].
Qed.

End connection_properties.
(** * The variant of the class in [src/bluetooth.ts] *)

Section legacy_properties.
Context (env : Env).
Implicit Types (w : World) (bt : Legacy.Bluetooth) (s line : string).

Lemma run_tryCatch {A} (c : M A) (handler : Error → M A) w :
  run (tryCatch c handler) env w
  = match run c env w with
    | (w', inl e) => run (handler e) env w'
    | (w', inr a) => (w', inr a)
    end.
Proof. done. Qed.

Lemma run_exec cmd w :
  run (exec cmd) env w
  = ({| history := history w ++ [EvExec cmd]; client := client w |},
     match execStdout env (history w) cmd with
     | Some stdout => inr stdout
     | None => inl (ExecError cmd)
     end).
Proof.
  unfold exec. rewrite run_bind. unfold ask. cbn [run history client].
  rewrite run_bind, run_emit.
  by destruct (execStdout env (history w) cmd).
Qed.

(** ** Blank lines *)

Lemma stringForall_rev_app p (a b : string) :
  stringForall p (String.rev_app a b) = stringForall p a && stringForall p b.
Proof.
  revert b. induction a as [|c a IH]; intros b; [done|].
  simpl. rewrite IH. simpl. by destruct (p c), (stringForall p a).
Qed.

Lemma trimStart_ink s :
  stringForall Legacy.isWhiteSpace s = false →
  stringForall Legacy.isWhiteSpace (Legacy.trimStart s) = false.
Proof.
  induction s as [|c s IH]; [done|]. simpl.
  destruct (Legacy.isWhiteSpace c) eqn:Hc; simpl; [done|]. by rewrite Hc.
Qed.

Lemma trim_ink s :
  stringForall Legacy.isWhiteSpace s = false →
  truthy_string (Legacy.trim s) = true.
Proof.
  intros Hs. unfold Legacy.trim.
  assert (stringForall Legacy.isWhiteSpace
            (String.rev (Legacy.trimStart (String.rev (Legacy.trimStart s))))
          = false) as Hink.
  { unfold String.rev. rewrite stringForall_rev_app, andb_true_r.
    apply trimStart_ink.
    rewrite stringForall_rev_app, andb_true_r. by apply trimStart_ink. }
  by destruct (String.rev _).
Qed.

Lemma prefix_head (a c : ascii) (p s : string) :
  String.prefix (String a p) (String c s) = true → a = c.
Proof. cbn [String.prefix]. by destruct (ascii_dec a c). Qed.

Lemma matchDevice_ink line m :
  matchDevice line = Some m → stringForall Legacy.isWhiteSpace line = false.
Proof.
  induction line as [|c line IH]; cbn [matchDevice].
  - done.
  - destruct (matchDeviceHere (String c line)) as [m'|] eqn:Hm.
    + intros _. unfold matchDeviceHere in Hm.
      destruct (String.prefix _ _) eqn:Hp; [|done].
      by apply prefix_head in Hp as <-.
    + intros H%IH. simpl. rewrite H. by destruct (Legacy.isWhiteSpace c).
Qed.

(** Dropping the blank lines before the match changes nothing: a blank line
    does not match. *)
Lemma omap_matchDevice_filter {B} (f : string * string → B)
    (lines : list string) :
  omap (λ line, f <$> matchDevice line)
       (filter (λ line, truthy_string (Legacy.trim line) = true) lines)
  = omap (λ line, f <$> matchDevice line) lines.
Proof.
  induction lines as [|line lines IH]; [done|].
  rewrite filter_cons. destruct (decide _) as [Hk|Hk].
  - cbn [omap list_omap]. by rewrite <-IH.
  - cbn [omap list_omap].
    destruct (matchDevice line) as [m|] eqn:Hm; [|exact IH].
    apply matchDevice_ink, trim_ink in Hm. congruence.
Qed.

Lemma run_discoverPairedDevices w :
  run Legacy.discoverPairedDevices env w
  = ({| history := history w ++ [EvExec "bluetoothctl devices Paired"];
        client := client w |},
     inr match execStdout env (history w) "bluetoothctl devices Paired" with
         | Some stdout => pairedDevices stdout
         | None => []
         end).
Proof.
  unfold Legacy.discoverPairedDevices.
  rewrite run_tryCatch, run_bind, run_exec.
  destruct (execStdout _ _ _) as [stdout|]; [|done].
  rewrite run_ret. by rewrite omap_matchDevice_filter.
Qed.

(** X20: the discovery of this variant never fails: it runs the listing
    command once and returns the devices of the listing, in order; the
    blank-line filter it applies first drops no device; when the command
    fails it returns no device instead of an error. *)
Theorem discoverPairedDevices_never_fails w :
  run Legacy.discoverPairedDevices env w
  = ({| history := history w ++ [EvExec "bluetoothctl devices Paired"];
        client := client w |},
     inr match execStdout env (history w) "bluetoothctl devices Paired" with
         | Some stdout => pairedDevices stdout
         | None => []
         end).
Proof. apply run_discoverPairedDevices. Qed.

Lemma find_isDevice nameOrAddress (devices : list BluetoothDevice) :
  isAddressPattern nameOrAddress = false →
  Forall wellFormedDevice devices →
  List.find (Legacy.isDevice nameOrAddress) devices
  = List.find (nameContains nameOrAddress) devices.
Proof.
  intros Hpat. induction 1 as [|d devices Hd _ IH]; [done|].
  simpl. rewrite IH. unfold Legacy.isDevice, nameContains.
  rewrite bool_decide_eq_false_2, orb_false_r; [done|].
  intros Heq. destruct Hd as [Haddr _]. congruence.
Qed.

Lemma pairedDevices_well_formed stdout :
  Forall wellFormedDevice (pairedDevices stdout).
Proof.
  apply Forall_forall. intros d (line & _ & Hm & Hp)%elem_of_pairedDevices.
  apply matchDevice_well_formed in Hm as (? & ? & ?).
  by split_and!.
Qed.

Lemma run_resolveAddress_failed nameOrAddr w :
  isAddressPattern nameOrAddr = false →
  execStdout env (history w) "bluetoothctl devices Paired" = None →
  run (resolveAddress nameOrAddr) env w
  = ({| history := history w ++ [EvExec "bluetoothctl devices Paired"];
        client := client w |},
     inl (ExecError "bluetoothctl devices Paired")).
Proof.
  intros Hpat Hexec. unfold resolveAddress. rewrite Hpat.
  by rewrite run_bind, run_exec, Hexec.
Qed.

(** X21: for an input that is not of the form of an address, the lookup of
    this variant and the resolver of the RFCOMM variant run the same
    command.  When the command succeeds they find the same device: the
    resolver returns the address of the device the lookup finds, or fails
    with its device-not-found error when the lookup finds none.  When the
    command fails they differ: the lookup finds no device, the resolver
    fails with the error of the command.  (For an input of the form of an
    address the variants differ as well: the resolver returns it without a
    lookup, this variant looks for it in the listing.) *)
Theorem findDevice_agrees_with_resolveAddress nameOrAddress w :
  isAddressPattern nameOrAddress = false →
  ∃ found,
    run (Legacy.findDevice nameOrAddress) env w
    = ((run (resolveAddress nameOrAddress) env w).1, inr found)
    ∧ (run (resolveAddress nameOrAddress) env w).2
      = match execStdout env (history w) "bluetoothctl devices Paired" with
        | Some _ =>
            match found with
            | Some d => inr (address d)
            | None => inl (DeviceNotFound nameOrAddress)
            end
        | None => inl (ExecError "bluetoothctl devices Paired")
        end
    ∧ (execStdout env (history w) "bluetoothctl devices Paired" = None →
       found = None).
Proof.
  intros Hpat. unfold Legacy.findDevice.
  rewrite run_bind, run_discoverPairedDevices, run_ret.
  destruct (execStdout env (history w) "bluetoothctl devices Paired")
    as [stdout|] eqn:Hexec.
  - exists (List.find (nameContains nameOrAddress) (pairedDevices stdout)).
    rewrite (run_resolveAddress_lookup env nameOrAddress stdout) by done.
    rewrite find_isDevice by (done || apply pairedDevices_well_formed).
    by split_and!.
  - exists None. rewrite run_resolveAddress_failed by done. by split_and!.
Qed.

Lemma run_execCaught cmd w :
  run (Legacy.execCaught cmd) env w
  = ({| history := history w ++ [EvExec cmd]; client := client w |}, inr tt).
Proof.
  unfold Legacy.execCaught. rewrite run_tryCatch, run_bind, run_exec.
  by destruct (execStdout _ _ _).
Qed.

Lemma run_legacy_sendMessage bt message w :
  run (Legacy.sendMessage bt message) env w
  = ({| history :=
          history w
          ++ (if Legacy.isConnected bt
                 && truthy_string (Legacy.deviceAddress bt)
              then [EvExec ("sdptool browse " +:+ Legacy.deviceAddress bt)]
              else []);
        client := client w |},
     inr tt).
Proof.
  unfold Legacy.sendMessage.
  destruct (Legacy.isConnected bt) eqn:Hc; cbn [negb andb].
  - rewrite run_tryCatch. unfold Legacy.sendViaSPP. rewrite Hc.
    cbn [negb orb].
    destruct (truthy_string (Legacy.deviceAddress bt)); cbn [negb].
    + change (tryCatch _ _)
        with (Legacy.execCaught ("sdptool browse " +:+ Legacy.deviceAddress bt)).
      by rewrite run_execCaught.
    + by rewrite run_ret, app_nil_r, world_eta.
  - by rewrite run_ret, app_nil_r, world_eta.
Qed.

(** X22: the [sendMessage] of this variant never fails and never writes the
    message anywhere: when the object is connected it lists the services of
    the device with one command, whose outcome is ignored, and otherwise it
    does nothing. *)
Theorem legacy_sendMessage_writes_nothing bt message w :
  run (Legacy.sendMessage bt message) env w
  = ({| history :=
          history w
          ++ (if Legacy.isConnected bt
                 && truthy_string (Legacy.deviceAddress bt)
              then [EvExec ("sdptool browse " +:+ Legacy.deviceAddress bt)]
              else []);
        client := client w |},
     inr tt).
Proof. apply run_legacy_sendMessage. Qed.

Lemma find_well_formed (p : BluetoothDevice → bool) stdout d :
  List.find p
    match stdout with
    | Some stdout => pairedDevices stdout
    | None => []
    end = Some d →
  isAddressPattern (address d) = true.
Proof.
  intros [Hin _]%find_some. apply list_elem_of_In in Hin.
  destruct stdout as [stdout|]; [|by apply elem_of_nil in Hin].
  pose proof (pairedDevices_well_formed stdout) as Hwf.
  rewrite Forall_forall in Hwf. by apply Hwf in Hin as [? _].
Qed.

Lemma run_legacy_startConnection bt deviceIdentifier w :
  run (Legacy.startConnection bt deviceIdentifier) env w
  = let identifier :=
      if truthy_string deviceIdentifier then deviceIdentifier
      else if truthy_string (Legacy.deviceAddress bt)
           then Legacy.deviceAddress bt
           else Legacy.deviceName bt in
    if truthy_string identifier then
      let h1 := history w ++ [EvExec "bluetoothctl devices Paired"] in
      match List.find (Legacy.isDevice identifier)
              match execStdout env (history w) "bluetoothctl devices Paired" with
              | Some stdout => pairedDevices stdout
              | None => []
              end with
      | None =>
          ({| history := h1 ++ [EvExec "bluetoothctl devices Paired"];
              client := client w |},
           inl (Legacy.DeviceNotFound identifier))
      | Some device =>
          match execStdout env h1 ("bluetoothctl connect " +:+ address device) with
          | Some _ =>
              ({| history := h1 ++ [EvExec ("bluetoothctl connect "
                                            +:+ address device);
                                    EvSleep 2000];
                  client := client w |},
               inr {| Legacy.deviceAddress := address device;
                      Legacy.deviceName := Legacy.deviceName bt;
                      Legacy.isConnected := true;
                      Legacy.rfcommChannel := Legacy.rfcommChannel bt;
                      Legacy.rfcommProcess := Legacy.rfcommProcess bt |})
          | None =>
              ({| history := h1 ++ [EvExec ("bluetoothctl connect "
                                            +:+ address device)];
                  client := client w |},
               inl (ExecError ("bluetoothctl connect " +:+ address device)))
          end
      end
    else (w, inl Legacy.ConfigurationMissing).
Proof.
  unfold Legacy.startConnection. cbv zeta.
  destruct (truthy_string (if truthy_string deviceIdentifier then _ else _));
    [|done].
  unfold Legacy.findDevice.
  rewrite !run_bind, run_discoverPairedDevices, run_ret.
  destruct (List.find _ _) as [device|].
  - rewrite run_bind, run_exec. cbn [history client].
    destruct (execStdout env _ _) as [out|]; [|done].
    unfold sleep. rewrite run_bind, run_emit, run_ret. cbn [history client].
    by rewrite <-(assoc_L (++)).
  - by rewrite run_bind, run_discoverPairedDevices.
Qed.

(** X23: the outcomes of the [startConnection] of this variant.  Without an
    identifier, a configured address or a configured name it fails at once
    and runs no command.  When the lookup finds no device, also because the
    listing command failed, it lists the devices a second time and fails
    with the device-not-found error.  Otherwise it runs the connect command
    for the address found, and fails with the error of this command, or
    waits two seconds and returns a connected object that holds an address
    of the documented form. *)
Theorem legacy_startConnection_outcomes bt deviceIdentifier w :
  match (run (Legacy.startConnection bt deviceIdentifier) env w).2 with
  | inr bt' =>
      Legacy.isConnected bt' = true
      ∧ isAddressPattern (Legacy.deviceAddress bt') = true
      ∧ history (run (Legacy.startConnection bt deviceIdentifier) env w).1
        = history w
          ++ [EvExec "bluetoothctl devices Paired";
              EvExec ("bluetoothctl connect " +:+ Legacy.deviceAddress bt');
              EvSleep 2000]
  | inl e =>
      (e = Legacy.ConfigurationMissing
       ∧ deviceIdentifier = EmptyString
       ∧ Legacy.deviceAddress bt = EmptyString
       ∧ Legacy.deviceName bt = EmptyString
       ∧ (run (Legacy.startConnection bt deviceIdentifier) env w).1 = w)
      ∨ (e = Legacy.DeviceNotFound
               (if truthy_string deviceIdentifier then deviceIdentifier
                else if truthy_string (Legacy.deviceAddress bt)
                     then Legacy.deviceAddress bt
                     else Legacy.deviceName bt)
         ∧ history (run (Legacy.startConnection bt deviceIdentifier) env w).1
           = history w
             ++ [EvExec "bluetoothctl devices Paired";
                 EvExec "bluetoothctl devices Paired"])
      ∨ (∃ addr,
           isAddressPattern addr = true
           ∧ e = ExecError ("bluetoothctl connect " +:+ addr)
           ∧ history (run (Legacy.startConnection bt deviceIdentifier) env w).1
             = history w
               ++ [EvExec "bluetoothctl devices Paired";
                   EvExec ("bluetoothctl connect " +:+ addr)])
  end.
Proof.
  rewrite run_legacy_startConnection. cbv zeta.
  destruct (truthy_string (if truthy_string deviceIdentifier then _ else _))
    eqn:Hid.
  - destruct (List.find _ _) as [device|] eqn:Hfind.
    + apply find_well_formed in Hfind.
      destruct (execStdout env _ _) as [out|]; cbn [fst snd history].
      * by rewrite <-(assoc_L (++)).
      * right. right. exists (address device).
        by rewrite <-(assoc_L (++)).
    + cbn [fst snd history]. right. left. by rewrite <-(assoc_L (++)).
  - cbn [fst snd]. left.
    destruct deviceIdentifier; [|done]. simpl in Hid.
    destruct (Legacy.deviceAddress bt); [|done]. simpl in Hid.
    by destruct (Legacy.deviceName bt).
Qed.

Lemma run_legacy_closeConnection bt w :
  run (Legacy.closeConnection bt) env w
  = ({| history :=
          history w
          ++ (if truthy_string (Legacy.rfcommChannel bt)
              then [EvExec "sudo rfcomm release rfcomm0"] else [])
          ++ (if truthy_string (Legacy.deviceAddress bt)
              then [EvExec ("bluetoothctl disconnect "
                            +:+ Legacy.deviceAddress bt)]
              else []);
        client := client w |},
     inr {| Legacy.deviceAddress := Legacy.deviceAddress bt;
            Legacy.deviceName := Legacy.deviceName bt;
            Legacy.isConnected := false;
            Legacy.rfcommChannel := EmptyString;
            Legacy.rfcommProcess := Legacy.rfcommProcess bt |}).
Proof.
  unfold Legacy.closeConnection. rewrite run_tryCatch, !run_bind.
  destruct (truthy_string (Legacy.rfcommChannel bt));
    rewrite ?run_execCaught, ?run_ret, ?run_bind;
    destruct (truthy_string (Legacy.deviceAddress bt));
    rewrite ?run_execCaught, ?run_ret; cbn [history client app];
    rewrite ?app_nil_r, ?world_eta, <-?(assoc_L (++)); done.
Qed.

(** X24: the [closeConnection] of this variant never fails, also when its
    commands do: it runs the release command when a channel is recorded and
    the disconnect command when an address is known, ignores their
    outcomes, and returns the object with the connected flag cleared.  A
    message sent on the object it returns runs no command at all. *)
Theorem legacy_closeConnection_disconnects bt message w :
  (∃ bt',
     run (Legacy.closeConnection bt) env w
     = ({| history :=
             history w
             ++ (if truthy_string (Legacy.rfcommChannel bt)
                 then [EvExec "sudo rfcomm release rfcomm0"] else [])
             ++ (if truthy_string (Legacy.deviceAddress bt)
                 then [EvExec ("bluetoothctl disconnect "
                               +:+ Legacy.deviceAddress bt)]
                 else []);
           client := client w |},
        inr bt')
     ∧ Legacy.connected bt' = false
     ∧ Legacy.deviceAddress bt' = Legacy.deviceAddress bt)
  ∧ run (bt' ← Legacy.closeConnection bt; Legacy.sendMessage bt' message) env w
    = ((run (Legacy.closeConnection bt) env w).1, inr tt).
Proof.
  rewrite run_bind, run_legacy_closeConnection. split.
  - eexists. by split_and!.
  - rewrite run_legacy_sendMessage. cbn [Legacy.isConnected andb fst].
    by rewrite app_nil_r, world_eta.
Qed.

(** ** The footprint of the methods *)

Lemma legacyFootprint_ret {A} (a : A) : Legacy.legacyFootprint (mret a : M A).
Proof. intros env' w. split; [done|]. exists []. by rewrite app_nil_r. Qed.

Lemma legacyFootprint_throw {A} e : Legacy.legacyFootprint (throw e : M A).
Proof. intros env' w. split; [done|]. exists []. by rewrite app_nil_r. Qed.

Lemma legacyFootprint_emit ev :
  Legacy.legacyEvent ev → Legacy.legacyFootprint (emit ev).
Proof.
  intros Hev env' w. split; [done|]. exists [ev]. split; [done|].
  by constructor.
Qed.

Lemma legacyFootprint_bind {A B} (c : M A) (f : A → M B) :
  Legacy.legacyFootprint c → (∀ a, Legacy.legacyFootprint (f a)) →
  Legacy.legacyFootprint (c ≫= f).
Proof.
  intros Hc Hf env' w. unfold run. unfold mbind, M_bind.
  destruct (Hc env' w) as (Hcl1 & evs1 & Hh1 & Hall1). unfold run in *.
  destruct (c env' w) as [w1 [e|a]]; cbn [fst snd] in *.
  - split; [done|]. by exists evs1.
  - destruct (Hf a env' w1) as (Hcl2 & evs2 & Hh2 & Hall2). unfold run in *.
    split; [congruence|]. exists (evs1 ++ evs2). split.
    + by rewrite Hh2, Hh1, (assoc_L (++)).
    + by apply Forall_app.
Qed.

Lemma legacyFootprint_tryCatch {A} (c : M A) (handler : Error → M A) :
  Legacy.legacyFootprint c → (∀ e, Legacy.legacyFootprint (handler e)) →
  Legacy.legacyFootprint (tryCatch c handler).
Proof.
  intros Hc Hf env' w. unfold run, tryCatch.
  destruct (Hc env' w) as (Hcl1 & evs1 & Hh1 & Hall1). unfold run in *.
  destruct (c env' w) as [w1 [e|a]]; cbn [fst snd] in *.
  - destruct (Hf e env' w1) as (Hcl2 & evs2 & Hh2 & Hall2). unfold run in *.
    split; [congruence|]. exists (evs1 ++ evs2). split.
    + by rewrite Hh2, Hh1, (assoc_L (++)).
    + by apply Forall_app.
  - split; [done|]. by exists evs1.
Qed.

Lemma legacyFootprint_exec cmd : Legacy.legacyFootprint (exec cmd).
Proof.
  intros env' w. unfold run, exec, ask, mbind, M_bind, emit. cbn.
  destruct (execStdout env' (history w) cmd); cbn;
    (split; [done|]; exists [EvExec cmd]; split; [done|by constructor]).
Qed.

Lemma legacyFootprint_discoverPairedDevices :
  Legacy.legacyFootprint Legacy.discoverPairedDevices.
Proof.
  apply legacyFootprint_tryCatch; [|intros; apply legacyFootprint_ret].
  apply legacyFootprint_bind; [apply legacyFootprint_exec|].
  intros; apply legacyFootprint_ret.
Qed.

Lemma legacyFootprint_startConnection bt deviceIdentifier :
  Legacy.legacyFootprint (Legacy.startConnection bt deviceIdentifier).
Proof.
  unfold Legacy.startConnection. cbv zeta.
  destruct (truthy_string _); [|apply legacyFootprint_throw].
  apply legacyFootprint_bind.
  { apply legacyFootprint_bind; [apply legacyFootprint_discoverPairedDevices|].
    intros; apply legacyFootprint_ret. }
  intros [device|].
  - apply legacyFootprint_bind; [apply legacyFootprint_exec|]. intros _.
    apply legacyFootprint_bind; [by apply legacyFootprint_emit|]. intros _.
    apply legacyFootprint_ret.
  - apply legacyFootprint_bind; [apply legacyFootprint_discoverPairedDevices|].
    intros _. apply legacyFootprint_throw.
Qed.

Lemma legacyFootprint_execCaught cmd :
  Legacy.legacyFootprint (Legacy.execCaught cmd).
Proof.
  apply legacyFootprint_tryCatch; [|intros; apply legacyFootprint_ret].
  apply legacyFootprint_bind; [apply legacyFootprint_exec|].
  intros; apply legacyFootprint_ret.
Qed.

Lemma legacyFootprint_sendMessage bt message :
  Legacy.legacyFootprint (Legacy.sendMessage bt message).
Proof.
  unfold Legacy.sendMessage.
  destruct (negb _); [apply legacyFootprint_ret|].
  apply legacyFootprint_tryCatch; [|intros; apply legacyFootprint_ret].
  unfold Legacy.sendViaSPP.
  destruct (_ || _); [apply legacyFootprint_ret|].
  apply legacyFootprint_execCaught.
Qed.

Lemma legacyFootprint_closeConnection bt :
  Legacy.legacyFootprint (Legacy.closeConnection bt).
Proof.
  apply legacyFootprint_tryCatch; [|intros; apply legacyFootprint_ret].
  apply legacyFootprint_bind.
  { destruct (truthy_string _);
      [apply legacyFootprint_execCaught|apply legacyFootprint_ret]. }
  intros _. apply legacyFootprint_bind.
  { destruct (truthy_string _);
      [apply legacyFootprint_execCaught|apply legacyFootprint_ret]. }
  intros _. apply legacyFootprint_ret.
Qed.

(** X25: the test script never fails, whatever the commands do: every
    error of the connection test is caught.  It touches nothing but the
    command line: all it adds to the history are commands and the
    two-second wait, and with an empty listing it stops after the listing
    command. *)
Theorem testBluetooth_never_fails bluetooth w :
  (run (Legacy.testBluetooth bluetooth) env w).2 = inr tt
  ∧ (∃ evs,
       history (run (Legacy.testBluetooth bluetooth) env w).1 = history w ++ evs
       ∧ Forall Legacy.legacyEvent evs)
  ∧ (match execStdout env (history w) "bluetoothctl devices Paired" with
     | Some stdout => pairedDevices stdout
     | None => []
     end = [] →
     history (run (Legacy.testBluetooth bluetooth) env w).1
     = history w ++ [EvExec "bluetoothctl devices Paired"]).
Proof.
  split_and!.
  - unfold Legacy.testBluetooth. rewrite run_tryCatch.
    destruct (run _ env w) as [w1 [e|[]]]; done.
  - assert (Legacy.legacyFootprint (Legacy.testBluetooth bluetooth)) as Hfp.
    { apply legacyFootprint_tryCatch; [|intros; apply legacyFootprint_ret].
      apply legacyFootprint_bind;
        [apply legacyFootprint_discoverPairedDevices|].
      intros [|device devices]; [apply legacyFootprint_ret|].
      apply legacyFootprint_tryCatch; [|intros; apply legacyFootprint_ret].
      apply legacyFootprint_bind; [apply legacyFootprint_startConnection|].
      intros bt1.
      apply legacyFootprint_bind; [apply legacyFootprint_sendMessage|].
      intros _.
      apply legacyFootprint_bind; [apply legacyFootprint_closeConnection|].
      intros _. apply legacyFootprint_ret. }
    by destruct (Hfp env w) as [_ Hevs].
  - intros Hnone. unfold Legacy.testBluetooth.
    rewrite run_tryCatch, run_bind, run_discoverPairedDevices, Hnone.
    by rewrite run_ret.
Qed.

End legacy_properties.
(** * The time a playback waits *)

Section waiting_properties.
Implicit Types (w : World) (data : gmap Z DataGroup) (deltas rest : list Z).

Lemma keepsSleeps_ret {A} (a : A) : keepsSleeps (mret a : M A).
Proof. done. Qed.

Lemma keepsSleeps_throw {A} e : keepsSleeps (throw e : M A).
Proof. done. Qed.

Lemma keepsSleeps_ask {A} (f : Env → list Event → A) : keepsSleeps (ask f).
Proof. done. Qed.

Lemma keepsSleeps_emit ev :
  (∀ ms, ev ≠ EvSleep ms) → keepsSleeps (emit ev).
Proof.
  intros Hev env w. rewrite run_emit. cbn [fst history].
  unfold sleepsOf. rewrite omap_app. cbn [omap list_omap].
  destruct ev; try by rewrite app_nil_r. by destruct (Hev ms).
Qed.

Lemma keepsSleeps_bind {A B} (c : M A) (f : A → M B) :
  keepsSleeps c → (∀ a, keepsSleeps (f a)) → keepsSleeps (c ≫= f).
Proof.
  intros Hc Hf env w. rewrite run_bind. specialize (Hc env w).
  destruct (run c env w) as [w1 [e|a]]; [done|].
  cbn [fst] in Hc. by rewrite Hf.
Qed.

Lemma keepsSleeps_sendMessage message : keepsSleeps (sendMessage message).
Proof.
  unfold sendMessage.
  apply keepsSleeps_bind; [done|]. intros bt.
  destruct (rfcommFd bt) as [fd|]; [|apply keepsSleeps_throw].
  unfold write.
  apply keepsSleeps_bind; [apply keepsSleeps_ask|]. intros failed.
  apply keepsSleeps_bind; [by apply keepsSleeps_emit|]. intros _.
  destruct failed; [apply keepsSleeps_throw|apply keepsSleeps_ret].
Qed.

Lemma keepsSleeps_sendField datum key mt :
  keepsSleeps (sendField datum key mt).
Proof.
  unfold sendField.
  destruct (fields datum !! key) as [v|]; [destruct (truthy v)|];
    try apply keepsSleeps_ret.
  apply keepsSleeps_bind; [apply keepsSleeps_ask|]. intros d.
  apply keepsSleeps_sendMessage.
Qed.

Lemma keepsSleeps_sendGroup datum : keepsSleeps (sendGroup datum).
Proof.
  unfold sendGroup.
  repeat (apply keepsSleeps_bind; [apply keepsSleeps_sendField|intros _]).
  apply keepsSleeps_sendField.
Qed.

Lemma run_waitDelta_sleeps env (i : nat) deltas w :
  (run (waitDelta i deltas) env w).2 = inr tt
  ∧ sleepsOf (history (run (waitDelta i deltas) env w).1)
    = sleepsOf (history w)
      ++ match deltas !! i with Some d => [d * 1000] | None => [] end.
Proof.
  unfold waitDelta. destruct (deltas !! i) as [d|].
  - unfold sleep. rewrite run_emit. cbn [fst snd history].
    unfold sleepsOf. by rewrite omap_app.
  - rewrite run_ret. cbn [fst snd]. by rewrite app_nil_r.
Qed.

(** The waits of the loop are, in order, the first deltas still to come. *)
Lemma playFrom_sleeps env data deltas rest (i : nat) w :
  (∀ ts, ts ∈ rest → is_Some (data !! ts)) →
  ∃ j : nat,
    sleepsOf (history (run (playFrom data deltas i rest) env w).1)
    = sleepsOf (history w) ++ ((λ d, d * 1000) <$> take j (drop i deltas)).
Proof.
  revert i w. induction rest as [|ts rest IH]; intros i w Hkeys.
  { exists 0%nat. simpl. by rewrite app_nil_r. }
  simpl playFrom. rewrite run_bind. unfold isAborted at 1, ask at 1. simpl.
  destruct (aborted env (history w)).
  { exists 0%nat. simpl. by rewrite app_nil_r. }
  rewrite run_bind, run_emit.
  set (w1 := {| history := history w ++ [EvGroup ts]; client := client w |}).
  assert (sleepsOf (history w1) = sleepsOf (history w)) as Hw1.
  { unfold sleepsOf. simpl. rewrite omap_app. simpl. by rewrite app_nil_r. }
  clearbody w1.
  destruct (Hkeys ts) as [datum Hdatum]; [by left|]. rewrite Hdatum.
  rewrite run_bind.
  pose proof (keepsSleeps_sendGroup datum env w1) as Hs.
  destruct (run (sendGroup datum) env w1) as [w2 [e|[]]]; cbn [fst] in Hs.
  { exists 0%nat. simpl. by rewrite app_nil_r, Hs, Hw1. }
  rewrite run_bind.
  destruct (run_waitDelta_sleeps env i deltas w2) as [Hok Hd].
  destruct (run (waitDelta i deltas) env w2) as [w3 r3]; cbn [fst snd] in *.
  subst r3.
  destruct (IH (S i) w3) as [j Hj].
  { intros ts' Hin. apply Hkeys. by right. }
  rewrite Hj, Hd, Hs, Hw1, <-(assoc_L (++)).
  destruct (deltas !! i) as [d|] eqn:Hi.
  - exists (S j). by rewrite (drop_S _ _ _ Hi).
  - exists j. simpl.
    apply lookup_ge_None in Hi.
    by rewrite !drop_ge by lia.
Qed.

Lemma sumZ_scaled (l : list Z) :
  sumZ ((λ d, d * 1000) <$> l) = sumZ l * 1000.
Proof.
  induction l as [|d l IH]; [done|]. rewrite fmap_cons.
  unfold sumZ in *. cbn [foldr]. rewrite IH. lia.
Qed.

Lemma sumZ_take (j : nat) (l : list Z) :
  Forall (λ d, 0 < d) l → 0 ≤ sumZ (take j l) ≤ sumZ l.
Proof.
  intros Hpos. revert j.
  induction Hpos as [|d l Hd _ IH]; intros j.
  - by rewrite take_nil.
  - destruct j as [|j]; unfold sumZ in *; simpl.
    + specialize (IH 0%nat). rewrite take_0 in IH. simpl in IH. lia.
    + specialize (IH j). lia.
Qed.

(** X26: whatever the environment does (cancellation, failing writes, no
    connection), the waits of a playback are, in order, the first deltas of
    the recording in milliseconds; each of them is positive, and together
    they never exceed the span of the recording, from its first to its last
    timestamp. *)
Theorem playback_waits_within_the_recording env data w :
  ∃ j : nat,
    sleepsOf (history (run (prepareAndSendMessages data) env w).1)
    = sleepsOf (history w)
      ++ ((λ d, d * 1000) <$> take j (timeDeltas (sortedTimestamps data)))
    ∧ Forall (λ ms, 0 < ms)
        ((λ d, d * 1000) <$> take j (timeDeltas (sortedTimestamps data)))
    ∧ ∀ first final,
        head (sortedTimestamps data) = Some first →
        last (sortedTimestamps data) = Some final →
        sumZ ((λ d, d * 1000) <$> take j (timeDeltas (sortedTimestamps data)))
        ≤ (final - first) * 1000.
Proof.
  destruct (playFrom_sleeps env data (timeDeltas (sortedTimestamps data))
              (sortedTimestamps data) 0 w) as [j Hj].
  { intros ts. by rewrite elem_of_sortedTimestamps. }
  pose proof (timeDeltas_positive _ (sortedTimestamps_ascending data)) as Hpos.
  exists j. split_and!.
  - exact Hj.
  - apply Forall_fmap. eapply Forall_impl; [by apply Forall_take|].
    simpl. lia.
  - intros first final Hfirst Hfinal.
    rewrite sumZ_scaled.
    rewrite <-(sumZ_timeDeltas _ first final Hfirst Hfinal).
    pose proof (sumZ_take j _ Hpos). lia.
Qed.

End waiting_properties.

(** * The success test of the negotiation *)

Section success_properties.
Implicit Types (s sub : string).







(** X28: an attempt is settled once.  What the connect process prints on
    its standard error never decides an attempt; and once a success line
    has arrived or the process has exited, nothing the process delivers
    afterwards changes the outcome. *)
Theorem attempt_is_settled_once (front back : list ProcEvent) :
  race (filter (λ ev, isStderr ev = false) front) = race front
  ∧ (race front ≠ TimedOut → race (front ++ back) = race front).
Proof.
  split.
  - induction front as [|[chunk|chunk|code] front IH]; [done|..].
    + rewrite filter_cons_True by done. simpl. by rewrite IH.
    + by rewrite filter_cons_False by done.
    + by rewrite filter_cons_True by done.
  - induction front as [|[chunk|chunk|code] front IH]; simpl; [done|..].
    + by destruct (isSuccessOutput chunk).
    + done.
    + done.
Qed.

End success_properties.
(** * The further statements, on the sample inputs *)

(** X1 on [two_groups], extended by a sample at a new timestamp. *)
Lemma group_after_retained_measurement_witness :
  ignoreMeasurementType (measureType (heart 107 61 1)) = false
  ∧ ∀ t, t ≠ date (heart 107 61 1) →
         groupMeasurementsByTimestamp (two_groups ++ [heart 107 61 1]) !! t
         = groupMeasurementsByTimestamp two_groups !! t.
Proof.
  split; [reflexivity|].
  destruct (group_after_retained_measurement two_groups (heart 107 61 1))
    as [_ H]; [reflexivity|exact H].
Defined.

(** X2 on the first group of [two_groups]. *)
Lemma group_invariants_witness :
  groupMeasurementsByTimestamp two_groups !! 100 = Some group100
  ∧ timestamp group100 = 100
  ∧ fields group100 ≠ ∅.
Proof.
  assert (groupMeasurementsByTimestamp two_groups !! 100 = Some group100)
    as Hg by (vm_compute; reflexivity).
  split; [exact Hg|].
  destruct (group_invariants two_groups 100 group100 Hg) as (H1 & H2 & _).
  split; [exact H1|exact H2].
Defined.

(** X3 on two input files with one sample each, at different timestamps. *)
Lemma group_of_disjoint_inputs_witness :
  groupMeasurementsByTimestamp
    (flatMeasurementData ([ {| data := [heart 100 59 1] |} ]
                          ++ [ {| data := [heart 103 60 1] |} ]))
  = groupMeasurementsByTimestamp
      (flatMeasurementData [ {| data := [heart 100 59 1] |} ])
    ∪ groupMeasurementsByTimestamp
        (flatMeasurementData [ {| data := [heart 103 60 1] |} ]).
Proof.
  apply (group_of_disjoint_inputs [ {| data := [heart 100 59 1] |} ]
           [ {| data := [heart 103 60 1] |} ]).
  intros m1 m2 H1%list_elem_of_In H2%list_elem_of_In _ _.
  simpl in H1, H2. intuition subst; discriminate.
Defined.

(** X4 on an input file that holds an ECG sample only. *)
Lemma nothing_retained_nothing_played_witness :
  (∀ m, m ∈ flatMeasurementData [ {| data := [ecg 101 1] |} ] →
        ignoreMeasurementType (measureType m) = true)
  ∧ run (replay [ {| data := [ecg 101 1] |} ]) env_live world_open
    = (world_open, inr tt).
Proof.
  assert (∀ m, m ∈ flatMeasurementData [ {| data := [ecg 101 1] |} ] →
               ignoreMeasurementType (measureType m) = true) as Hall.
  { intros m H%list_elem_of_In. simpl in H. intuition subst; reflexivity. }
  split; [exact Hall|].
  apply (nothing_retained_nothing_played [ {| data := [ecg 101 1] |} ]
           env_live world_open), Hall.
Defined.

(** X6 on a client that was never connected. *)
Lemma playback_without_descriptor_witness :
  rfcommFd (client world_closed) = None
  ∧ ∀ e, (run (prepareAndSendMessages
                 (groupMeasurementsByTimestamp two_groups))
            env_live world_closed).2 = inl e →
         e = NotConnected.
Proof.
  split; [reflexivity|].
  apply (playback_without_descriptor env_live
           (groupMeasurementsByTimestamp two_groups) world_closed).
  reflexivity.
Defined.

(** X7 when the first write fails. *)
Lemma playback_stops_at_a_failed_write_witness :
  rfcommFd (client world_open) = Some 3
  ∧ (run (prepareAndSendMessages (groupMeasurementsByTimestamp two_groups))
       env_broken world_open).2 = inl (WriteError 3)
  ∧ ∃ h bytes,
      history (run (prepareAndSendMessages
                      (groupMeasurementsByTimestamp two_groups))
                 env_broken world_open).1
      = h ++ [EvWrite 3 bytes]
      ∧ writeFails env_broken h 3 bytes = true.
Proof.
  assert ((run (prepareAndSendMessages (groupMeasurementsByTimestamp two_groups))
             env_broken world_open).2 = inl (WriteError 3)) as Hr
    by (vm_compute; reflexivity).
  split; [reflexivity|]. split; [exact Hr|].
  apply (playback_stops_at_a_failed_write env_broken
           (groupMeasurementsByTimestamp two_groups) world_open 3
           (WriteError 3) eq_refl Hr).
Defined.


(** X9 on the timestamps 100, 103, 107. *)
Lemma timeDeltas_facts_witness :
  StronglySorted Z.lt [100; 103; 107]
  ∧ Forall (λ d, 0 < d) (timeDeltas [100; 103; 107])
  ∧ sumZ (timeDeltas [100; 103; 107]) = 107 - 100.
Proof.
  assert (StronglySorted Z.lt [100; 103; 107]) as Hs.
  { repeat constructor; lia. }
  destruct (timeDeltas_facts [100; 103; 107]) as (_ & Hpos & Hsum).
  split; [exact Hs|]. split; [exact (Hpos Hs)|].
  apply Hsum; reflexivity.
Defined.

(** X10 on two plain texts. *)
Lemma framing_round_trip_witness :
  Forall (λ s, stringForall notLF s = true) ["ping"; "pong"]
  ∧ split LF (wire ["ping"; "pong"]) = ["ping"; "pong"] ++ [EmptyString].
Proof.
  assert (Forall (λ s, stringForall notLF s = true) ["ping"; "pong"]) as Hfree.
  { repeat constructor. }
  split; [exact Hfree|].
  destruct (framing_round_trip ["ping"; "pong"] []) as [H _].
  exact (H Hfree).
Defined.

(** X12 on a name fragment of the first listed device. *)
Lemma resolveAddress_returns_an_address_witness :
  (run (resolveAddress "xiaomi") env_live world_closed).2 = inr sample_address
  ∧ isAddressPattern sample_address = true.
Proof.
  assert ((run (resolveAddress "xiaomi") env_live world_closed).2
          = inr sample_address) as Hr by (vm_compute; reflexivity).
  split; [exact Hr|].
  destruct (resolveAddress_returns_an_address env_live "xiaomi" world_closed
              sample_address Hr) as [H _].
  exact H.
Defined.


(** X14 on the sample listing. *)
Lemma empty_fragment_resolves_to_the_first_device_witness :
  execStdout env_live (history world_closed) "bluetoothctl devices Paired"
  = Some sample_listing
  ∧ (run (resolveAddress EmptyString) env_live world_closed).2
    = inr sample_address.
Proof.
  split; [reflexivity|].
  rewrite (empty_fragment_resolves_to_the_first_device env_live world_closed
             sample_listing eq_refl).
  vm_compute. reflexivity.
Defined.

(** X15 on a fragment in upper and in lower case. *)
Lemma fragment_case_is_irrelevant_witness :
  toLowerCase "XIAOMI" = toLowerCase "xiaomi"
  ∧ isAddressPattern "XIAOMI" = false
  ∧ (run (resolveAddress "XIAOMI") env_live world_closed).1
    = (run (resolveAddress "xiaomi") env_live world_closed).1.
Proof.
  split; [reflexivity|]. split; [reflexivity|].
  destruct (fragment_case_is_irrelevant env_live world_closed
              "XIAOMI" "xiaomi") as [H _]; [reflexivity..|exact H].
Defined.

(** X19 when the connection is closed before the first group of
    [two_groups] is picked. *)
Lemma playback_needs_the_descriptor_witness :
  groupMeasurementsByTimestamp two_groups !! 100 = Some group100
  ∧ (0 < messageCount group100)%nat
  ∧ aborted env_live (history (run closeConnection env_live world_open).1)
    = false
  ∧ (run (closeConnection;;
          playFrom (groupMeasurementsByTimestamp two_groups) [3] 0 [100; 103])
       env_live world_open).2
    = inl NotConnected.
Proof.
  assert (groupMeasurementsByTimestamp two_groups !! 100 = Some group100)
    as Hg by (vm_compute; reflexivity).
  assert (0 < messageCount group100)%nat as Hcount by (vm_compute; lia).
  split; [exact Hg|]. split; [exact Hcount|]. split; [reflexivity|].
  destruct (playback_needs_the_descriptor env_live EmptyString
              (groupMeasurementsByTimestamp two_groups) [3] 0 [100; 103]
              world_open) as (_ & _ & _ & H).
  exact (H 100 [103] group100 eq_refl Hg Hcount eq_refl).
Defined.

(** X21 on a name fragment of the first listed device, and when the
    listing command fails. *)
Lemma findDevice_agrees_with_resolveAddress_witness :
  isAddressPattern "xiaomi" = false
  ∧ (∃ found,
       run (Legacy.findDevice "xiaomi") env_live world_closed
       = ((run (resolveAddress "xiaomi") env_live world_closed).1, inr found)
       ∧ (run (resolveAddress "xiaomi") env_live world_closed).2
         = match found with
           | Some d => inr (address d)
           | None => inl (DeviceNotFound "xiaomi")
           end)
  ∧ (∃ found,
       run (Legacy.findDevice "xiaomi") env_down world_closed
       = ((run (resolveAddress "xiaomi") env_down world_closed).1, inr found)
       ∧ (run (resolveAddress "xiaomi") env_down world_closed).2
         = inl (ExecError "bluetoothctl devices Paired")
       ∧ found = None).
Proof.
  split; [reflexivity|]. split.
  - destruct (findDevice_agrees_with_resolveAddress env_live "xiaomi"
                world_closed eq_refl) as (found & Hrun & Hres & _).
    exists found. split; [exact Hrun|exact Hres].
  - destruct (findDevice_agrees_with_resolveAddress env_down "xiaomi"
                world_closed eq_refl) as (found & Hrun & Hres & Hnone).
    exists found. split; [exact Hrun|]. split; [exact Hres|].
    apply Hnone. reflexivity.
Defined.

(** X25 when the listing command fails. *)
Lemma testBluetooth_never_fails_witness :
  match execStdout env_down (history world_closed)
          "bluetoothctl devices Paired" with
  | Some stdout => pairedDevices stdout
  | None => []
  end = []
  ∧ history (run (Legacy.testBluetooth
                    (Legacy.create EmptyString EmptyString))
               env_down world_closed).1
    = history world_closed ++ [EvExec "bluetoothctl devices Paired"].
Proof.
  split; [reflexivity|].
  destruct (testBluetooth_never_fails env_down
              (Legacy.create EmptyString EmptyString) world_closed)
    as (_ & _ & H).
  apply H. reflexivity.
Defined.

(** X26 on [three_groups], played without cancellation. *)
Lemma playback_waits_within_the_recording_witness :
  head (sortedTimestamps (groupMeasurementsByTimestamp three_groups)) = Some 100
  ∧ last (sortedTimestamps (groupMeasurementsByTimestamp three_groups))
    = Some 107
  ∧ ∃ j : nat,
      sumZ ((λ d, d * 1000)
              <$> take j (timeDeltas
                            (sortedTimestamps
                               (groupMeasurementsByTimestamp three_groups))))
      ≤ (107 - 100) * 1000.
Proof.
  assert (head (sortedTimestamps (groupMeasurementsByTimestamp three_groups))
          = Some 100) as Hfirst by (vm_compute; reflexivity).
  assert (last (sortedTimestamps (groupMeasurementsByTimestamp three_groups))
          = Some 107) as Hfinal by (vm_compute; reflexivity).
  split; [exact Hfirst|]. split; [exact Hfinal|].
  destruct (playback_waits_within_the_recording env_live
              (groupMeasurementsByTimestamp three_groups) world_open)
    as (j & _ & _ & H).
  exists j. exact (H 100 107 Hfirst Hfinal).
Defined.


(** X28 on the output of a refused attempt, followed by a late success
    line. *)
Lemma attempt_is_settled_once_witness :
  race (output_of sample_address 19) ≠ TimedOut
  ∧ race (output_of sample_address 19 ++ output_of sample_address 26) = Exited.
Proof.
  split; [discriminate|].
  destruct (attempt_is_settled_once (output_of sample_address 19)
              (output_of sample_address 26)) as [_ H].
  rewrite H; [reflexivity|discriminate].
Defined.
(** * The resolver and the negotiator, by what the commands print *)

Section text_facts.
Implicit Types (s sub : string).


















End text_facts.

(** ** The device resolver *)

Section resolver_claim.
Context (env : Env).
Implicit Types (w : World) (nameOrAddr stdout : string)
  (devices : list BluetoothDevice).





End resolver_claim.

(** ** The channel negotiator *)

Section negotiator_claim.
Context (env : Env) (addr : string) (output : Z → list ProcEvent).
Hypothesis output_by_channel :
  ∀ h ch,
    procEvents env (h ++ [EvSpawn (connectProc addr ch)]) connectTimeout
    = output ch.
Implicit Types (w : World) (channels : list Z).







End negotiator_claim.

(** ** The two statements on the sample inputs *)


